(** * Deep-zoom pyramid geometry: a shallow embedding of deepzoom.go

    The Go program cuts one raster into a pyramid of tiled levels.  This
    file embeds its descriptor ([DeepZoomImageDescriptor]), the filter
    registry, the image loader and the tile-emission loop, and states the
    geometric and error-handling properties of the specification over them.

    Conventions of the embedding.
    - Go's [int] (64 bits on the supported targets) is a [Z]; every [+],
      [-] and [*] on ints goes through [wrap], the two's-complement
      reduction.
    - Go's [float64] values that the program manipulates are images of
      ints and their products with powers of two, or quotients that are
      only ever passed to [math.Ceil].  For operands below 2^53 these are
      computed exactly (or, for the quotient, rounded without crossing an
      integer), so a float64 is modelled by the rational it denotes.
    - A panic is the [Panic] result; the descriptor's lazily filled
      [numLevels] field is threaded as explicit state.
    - The image, path and file-system calls are the fields of
      [Libraries]; an error that one of them returns reaches [check],
      which panics with it. *)

From Stdlib Require Import ZArith QArith Qround Qminmax Qpower.
From Stdlib Require Import Lia List String Ascii Bool Permutation DecimalString.
From Stdlib Require Import DecimalPos DecimalZ.
Import ListNotations.

Local Open Scope string_scope.
Local Open Scope list_scope.
Local Open Scope Z_scope.

(** ** Machine integers *)

Module GoInt.

Definition min_int : Z := - 2 ^ 63.
Definition max_int : Z := 2 ^ 63 - 1.

(** Two's-complement reduction to 64 bits. *)
Definition wrap (z : Z) : Z := (z + 2 ^ 63) mod 2 ^ 64 - 2 ^ 63.

Definition add (a b : Z) : Z := wrap (a + b).
Definition sub (a b : Z) : Z := wrap (a - b).
Definition mul (a b : Z) : Z := wrap (a * b).

(** [uint(z)] *)
Definition to_uint (z : Z) : Z := z mod 2 ^ 64.

End GoInt.

(** ** Floating point, on the exactly representable values *)

Module GoMath.

Definition float64 : Type := Q.

(** [float64(n)].  The conversion is exact up to 2^53 in magnitude,
    which is where the lemmas below keep every integer they convert. *)
Definition of_int (n : Z) : float64 := inject_Z n.

(** [int(f)]: truncation toward zero. *)
Definition to_int (f : float64) : Z := Z.quot (Qnum f) (Z.pos (Qden f)).

(** [math.Ceil] *)
Definition Ceil (f : float64) : float64 := inject_Z (Qceiling f).

(** [math.Max], [math.Min] *)
Definition Max (a b : float64) : float64 := Qmax a b.
Definition Min (a b : float64) : float64 := Qmin a b.

(** [math.Pow(x, float64(k))] for an integral exponent. *)
Definition Pow (x : float64) (k : Z) : float64 := Qpower x k.

(** The float64 nearest to a rational, ties to even: the exponent [s]
    puts the magnitude between 2^52 and 2^53, where it is rounded to an
    integer.  The exponent's range is not modelled. *)
Definition round (q : Q) : Q :=
  let n := Qnum q in
  let d := Z.pos (Qden q) in
  if n =? 0 then 0%Q else
    let a := Z.abs n in
    let over s := (a * 2 ^ Z.max 0 (- s), d * 2 ^ Z.max 0 s) in
    let s0 := Z.log2 a - Z.log2 d - 52 in
    let s := if fst (over s0) <? 2 ^ 52 * snd (over s0)
             then s0 - 1 else s0 in
    let '(num, den) := over s in
    let m0 := num / den in
    let r := num mod den in
    let m := if 2 * r <? den then m0
             else if den <? 2 * r then m0 + 1
             else if Z.even m0 then m0 else m0 + 1 in
    let signed := Z.sgn n * m in
    if 0 <=? s then inject_Z (signed * 2 ^ s)
    else Qmake signed (Z.to_pos (2 ^ (- s))).

(** [math.Ceil(math.Log2(f))].  The logarithm itself is irrational in
    general; only its ceiling is observed by the program.  For [f >= 1]
    that ceiling is the least [n] with [f <= 2^n].  Go's rounded
    logarithm has that ceiling for the integral arguments below 2^31 that
    the lemmas give it: it is exact at the powers of two and stays
    strictly between the neighbouring integers elsewhere. *)
Definition CeilLog2 (f : float64) : float64 :=
  inject_Z (Z.log2_up (Qceiling f)).

End GoMath.

(** ** Strings and paths *)

Module GoStrings.

(** [strconv.Itoa], also the [%d] verb of [fmt.Sprintf]. *)
Definition Itoa (n : Z) : string := NilZero.string_of_int (Z.to_int n).

(** [strings.HasSuffix] and [strings.TrimSuffix], on character lists. *)
Definition has_suffix (s suffix : list ascii) : bool :=
  (List.length suffix <=? List.length s)%nat
  && if list_eq_dec ascii_dec (skipn (List.length s - List.length suffix) s) suffix
     then true else false.

Definition trim_suffix (s suffix : list ascii) : list ascii :=
  if has_suffix s suffix
  then firstn (List.length s - List.length suffix) s
  else s.

Definition TrimSuffix (s suffix : string) : string :=
  string_of_list_ascii
    (trim_suffix (list_ascii_of_string s) (list_ascii_of_string suffix)).

(** [path.Ext]: scan from the last character towards the first, stop at
    a slash, return the tail that starts at the first dot met. *)
Fixpoint ext_scan (backwards acc : list ascii) : list ascii :=
  match backwards with
  | [] => []
  | c :: more =>
      if Ascii.eqb c "/" then []
      else if Ascii.eqb c "." then c :: acc
      else ext_scan more (c :: acc)
  end.

Definition ext (p : list ascii) : list ascii := ext_scan (rev p) [].

Definition Ext (p : string) : string :=
  string_of_list_ascii (ext (list_ascii_of_string p)).

End GoStrings.

Definition getFilesPath (filePath : string) : string :=
  (GoStrings.TrimSuffix filePath (GoStrings.Ext filePath) ++ "_files")%string.

(** [fmt.Sprintf("%d_%d.%s", column, row, format)] *)
Definition tileName (column row : Z) (format : string) : string :=
  (GoStrings.Itoa column ++ "_" ++ GoStrings.Itoa row ++ "." ++ format)%string.

(** ** Results and the state monad *)

Inductive error : Type :=
| InvalidLevel        (* errors.New("invalid pyramid level") *)
| UnsupportedFormat   (* errors.New("only jpg and png are supported") *)
| External (msg : string).  (* an error handed to check() by a library *)

Definition error_message (e : error) : string :=
  match e with
  | InvalidLevel => "invalid pyramid level"
  | UnsupportedFormat => "only jpg and png are supported"
  | External msg => msg
  end.

Inductive result (A : Type) : Type :=
| Ok (a : A)
| Panic (e : error).
Arguments Ok {A} a.
Arguments Panic {A} e.

(** A computation on a mutable receiver of type [S]: it may update the
    receiver and it may panic. *)
Definition ST (S A : Type) : Type := S -> result (A * S).

Definition ret {S A} (a : A) : ST S A := fun s => Ok (a, s).
Definition panic {S A} (e : error) : ST S A := fun _ => Panic e.
Definition bind {S A B} (m : ST S A) (k : A -> ST S B) : ST S B :=
  fun s => match m s with
           | Ok (a, s') => k a s'
           | Panic e => Panic e
           end.

Notation "x <- m ;; k" := (bind m (fun x => k))
  (at level 61, m at next level, right associativity).
Notation "m ;;; k" := (bind m (fun _ => k))
  (at level 61, right associativity).

(** The value of a computation, forgetting the final state. *)
Definition eval {S A} (m : ST S A) (s : S) : result A :=
  match m s with
  | Ok (a, _) => Ok a
  | Panic e => Panic e
  end.

Record DeepZoomImageDescriptor : Type := mkDzid {
  Format : string;
  Overlap : Z;
  TileSize : Z;
  Height : Z;
  Width : Z;
  numLevels : Z
}.

Definition set_numLevels (n : Z) (d : DeepZoomImageDescriptor) :=
  mkDzid (Format d) (Overlap d) (TileSize d) (Height d) (Width d) n.

(** The methods of [*DeepZoomImageDescriptor]: the state is the
    descriptor, whose [numLevels] cache they may fill. *)
Definition M (A : Type) : Type := ST DeepZoomImageDescriptor A.

(** ** image.Point and image.Rectangle *)

Record Point : Type := mkPoint { X : Z; Y : Z }.
Record Rectangle : Type := mkRect { Min : Point; Max : Point }.

Definition Dx (r : Rectangle) : Z := X (Max r) - X (Min r).
Definition Dy (r : Rectangle) : Z := Y (Max r) - Y (Min r).

(** A pixel lies in a rectangle when it is at or after [Min] and strictly
    before [Max] on both axes. *)
Definition In_rect (px py : Z) (r : Rectangle) : Prop :=
  X (Min r) <= px < X (Max r) /\ Y (Min r) <= py < Y (Max r).

(** ** The descriptor's methods *)

Definition NumLevels : M Z := fun d =>
  if numLevels d =? 0 then
    let maxDimension :=
      GoMath.to_int (GoMath.Max (GoMath.of_int (Height d))
                                (GoMath.of_int (Width d))) in
    let n :=
      GoInt.add
        (GoMath.to_int (GoMath.CeilLog2 (GoMath.of_int maxDimension))) 1 in
    Ok (n, set_numLevels n d)
  else Ok (numLevels d, d).

Definition pyramidLevelCheck (level : Z) : M unit :=
  n <- NumLevels ;;
  if (level <? 0) || (level >=? n) then panic InvalidLevel else ret tt.

Definition getScale (level : Z) : M GoMath.float64 :=
  pyramidLevelCheck level ;;;
  n <- NumLevels ;;
  let maxLevel := GoInt.sub n 1 in
  ret (GoMath.Pow (1 # 2) (GoInt.sub maxLevel level)).

Definition getDimensions (level : Z) : M (Z * Z) :=
  pyramidLevelCheck level ;;;
  scale <- getScale level ;;
  fun d =>
    let width :=
      GoMath.to_int (GoMath.Ceil (GoMath.of_int (Width d) * scale)%Q) in
    let height :=
      GoMath.to_int (GoMath.Ceil (GoMath.of_int (Height d) * scale)%Q) in
    Ok ((width, height), d).

(** Number of tiles (columns, rows) *)
Definition getNumTiles (level : Z) : M (Z * Z) :=
  pyramidLevelCheck level ;;;
  wh <- getDimensions level ;;
  fun d =>
    let '(w, h) := wh in
    Ok ((GoMath.to_int
           (GoMath.Ceil (GoMath.of_int w / GoMath.of_int (TileSize d))%Q),
         GoMath.to_int
           (GoMath.Ceil (GoMath.of_int h / GoMath.of_int (TileSize d))%Q)),
        d).

Definition getTileBounds (level column row : Z) : M Rectangle :=
  pyramidLevelCheck level ;;;
  fun d0 =>
    let offsetX := if column =? 0 then 0 else Overlap d0 in
    let offsetW := if column =? 0 then 1 else 2 in
    let offsetY := if row =? 0 then 0 else Overlap d0 in
    let offsetH := if row =? 0 then 1 else 2 in
    let x := GoInt.sub (GoInt.mul column (TileSize d0)) offsetX in
    let y := GoInt.sub (GoInt.mul row (TileSize d0)) offsetY in
    (wh <- getDimensions level ;;
     fun d =>
       let '(levelWidth, levelHeight) := wh in
       let w := GoInt.add (TileSize d) (GoInt.mul offsetW (Overlap d)) in
       let h := GoInt.add (TileSize d) (GoInt.mul offsetH (Overlap d)) in
       let w := GoMath.to_int
                  (GoMath.Min (GoMath.of_int w)
                              (GoMath.of_int (GoInt.sub levelWidth x))) in
       let h := GoMath.to_int
                  (GoMath.Min (GoMath.of_int h)
                              (GoMath.of_int (GoInt.sub levelHeight y))) in
       Ok (mkRect (mkPoint x y)
                  (mkPoint (GoInt.add x w) (GoInt.add y h)), d)) d0.

(** The descriptor as [ImageCreator.New] builds it: the cache field is
    left at its zero value. *)
Definition newDescriptor (width height tileSize overlap : Z) (format : string)
  : DeepZoomImageDescriptor :=
  mkDzid format overlap tileSize height width 0.


(** ** The resize-filter registry *)

(** The interpolation functions of the resize library. *)
Inductive InterpolationFunction : Type :=
| NearestNeighbor | Bilinear | Bicubic
| MitchellNetravali | Lanczos2 | Lanczos3.

(** A Go map literal: the keys are distinct, and a [range] over the map
    visits them in an order that is not specified. *)
Definition RESIZE_FILTERS : list (string * InterpolationFunction) :=
  [ ("bilinear", Bilinear);
    ("bicubic", Bicubic);
    ("nearest", NearestNeighbor);
    ("lanczos", Lanczos3) ].

(** [m[k]]: the value stored at the key.  A Go map read at a missing key
    yields the zero value of the element type, here the library's first
    constant; [None] marks that the key was missing.  [obtainFilter]
    returns keys of the registry only, so [getImage] reads no missing
    key. *)
Fixpoint lookup (m : list (string * InterpolationFunction)) (k : string)
  : option InterpolationFunction :=
  match m with
  | [] => None
  | (k', v) :: rest => if (k =? k')%string then Some v else lookup rest k
  end.

(** [obtainFilter], the [range] loop running over the keys in [order]. *)
Definition obtainFilter_in (order : list string) (filter : string) : string :=
  let b :=
    fold_left (fun b k => if (filter =? k)%string then true else b)
              order false in
  if Bool.eqb b false then "nearest" else filter.

Definition obtainFilter (filter : string) : string :=
  obtainFilter_in (map fst RESIZE_FILTERS) filter.

(** ** Libraries the program calls *)

Inductive codec : Type := JPEG | PNG.

(** What the image libraries, [path.Join] and the file system
    contribute.  They are not part of the program, so the creator is
    stated over any implementation of them.  What a call returns is
    taken to be determined by its arguments. *)
Class Libraries : Type := {
  (** values of [image.Image] *)
  Raster : Type;
  (** [gg.LoadJPG] and [gg.LoadPNG]: an image, or the error returned *)
  gg_Load : codec -> string -> Raster + string;
  (** [img.Bounds().Dx()] and [img.Bounds().Dy()] *)
  Bounds : Raster -> Z * Z;
  (** [resize.Thumbnail(maxWidth, maxHeight, img, interp)] *)
  resize_Thumbnail :
    Z -> Z -> Raster -> option InterpolationFunction -> Raster;
  (** [imaging.Crop(img, rect)] *)
  imaging_Crop : Raster -> Rectangle -> Raster;
  (** [path.Join(a, b)] *)
  path_Join : string -> string -> string;
  (** [int(quality * 100)], the option passed to the JPEG encoder *)
  jpeg_Quality : Q -> Z;
  (** [os.Stat(path)] reports that nothing exists at the path *)
  os_NotExist : string -> bool;
  (** [os.MkdirAll(path, os.ModePerm)]: the error returned, if any *)
  os_MkdirAll : string -> option string;
  (** [os.Create(path)]: the error returned, if any *)
  os_Create : string -> option string;
  (** [jpeg.Encode(out, tile, options)] into the file created at the
      path, with the given quality: the error returned, if any *)
  jpeg_Encode : string -> Raster -> Z -> option string;
  (** the template executed on the descriptor into the file created at
      the path: the error returned, if any *)
  template_Execute : string -> DeepZoomImageDescriptor -> option string
}.

(** ** The image creator *)

Record ImageCreator `{Libraries} : Type := mkCreator {
  dzid : DeepZoomImageDescriptor;
  Image : Raster;
  ImageQuality : Q;
  ResizeFilter : string;
  CopyMetadata : bool
}.

Definition set_dzid `{Libraries} (d : DeepZoomImageDescriptor)
  (ic : ImageCreator) : ImageCreator :=
  mkCreator _ d (Image ic) (ImageQuality ic) (ResizeFilter ic)
            (CopyMetadata ic).

(** The methods of [*ImageCreator]. *)
Definition C `{Libraries} (A : Type) : Type := ST ImageCreator A.

(** A descriptor method called through [ic.dzid]. *)
Definition on_dzid `{Libraries} {A} (m : M A) : C A := fun ic =>
  match m (dzid ic) with
  | Ok (a, d') => Ok (a, set_dzid d' ic)
  | Panic e => Panic e
  end.

(** What the run leaves on disk, in the order it is produced: one event
    for each directory, tile file and descriptor file whose library
    calls returned without error. *)
Inductive event `{Libraries} : Type :=
| EnsureDir (p : string)
    (* getOrCreatePath *)
| WriteTile (p : string) (encoder : codec) (tile : Raster) (quality : Z)
    (* os.Create, then the encoder writing the tile into the file *)
| SaveDescriptor (p : string) (d : DeepZoomImageDescriptor).
    (* dzid.save *)

Definition loadImage `{Libraries} (filePath format : string)
  : result (Raster + string) :=
  if (format =? "")%string || (format =? "jpg")%string then
    Ok (gg_Load JPEG filePath)
  else if (format =? "png")%string then
    Ok (gg_Load PNG filePath)
  else Panic UnsupportedFormat.

Definition check {A} (r : A + string) : result A :=
  match r with
  | inl a => Ok a
  | inr err => Panic (External err)
  end.

Definition getImage `{Libraries} (level : Z) : C Raster :=
  on_dzid (pyramidLevelCheck level) ;;;
  wh <- on_dzid (getDimensions level) ;;
  fun ic =>
    let '(width, height) := wh in
    if (Width (dzid ic) =? width) && (Height (dzid ic) =? height) then
      Ok (Image ic, ic)
    else
      let filter := obtainFilter (ResizeFilter ic) in
      Ok (resize_Thumbnail (GoInt.to_uint width) (GoInt.to_uint height)
                           (Image ic) (lookup RESIZE_FILTERS filter),
          ic).

(** [ImageCreator.New].  The receiver that [main] passes is a fresh
    creator on which only the configuration fields mean anything; they
    are the first three arguments here. *)
Definition New `{Libraries} (quality : Q) (filter : string) (copy : bool)
  (source format : string) (tileSize overlap : Z) : result ImageCreator :=
  match loadImage source format with
  | Panic e => Panic e
  | Ok loaded =>
      match check loaded with
      | Panic e => Panic e
      | Ok img =>
          let '(width, height) := Bounds img in
          Ok (mkCreator _ (mkDzid format overlap tileSize height width 0)
                        img quality filter copy)
      end
  end.

(** A counted loop [for i := 0; i < n; i++] whose bound is a local that
    the body does not assign. *)
Fixpoint count_loop {S E} (n : nat) (i : Z) (body : Z -> ST S (list E))
  : ST S (list E) :=
  match n with
  | O => ret []
  | Datatypes.S n' =>
      evs <- body i ;;
      rest <- count_loop n' (GoInt.add i 1) body ;;
      ret (evs ++ rest)
  end.

Definition for_range {S E} (n : Z) (body : Z -> ST S (list E))
  : ST S (list E) :=
  count_loop (Z.to_nat n) 0 body.

(** [check(err)] after a call that returns only an error. *)
Definition check_error {S} (err : option string) : ST S unit :=
  match err with
  | None => ret tt
  | Some msg => panic (External msg)
  end.

Definition getOrCreatePath `{Libraries} {S} (filePath : string)
  : ST S string :=
  if os_NotExist filePath then
    check_error (os_MkdirAll filePath) ;;; ret filePath
  else ret filePath.

Definition save `{Libraries} (filePath : string) : M event :=
  fun d =>
    (check_error (os_Create filePath) ;;;
     check_error (template_Execute filePath d) ;;;
     ret (SaveDescriptor filePath d)) d.

Definition emitTile `{Libraries} (levelDir : string) (levelImage : Raster)
  (level column row : Z) : C (list event) :=
  bounds <- on_dzid (getTileBounds level column row) ;;
  fun ic =>
    let tile := imaging_Crop levelImage bounds in
    let format := Format (dzid ic) in
    let tilePath := path_Join levelDir (tileName column row format) in
    let quality := jpeg_Quality (ImageQuality ic) in
    (check_error (os_Create tilePath) ;;;
     check_error (jpeg_Encode tilePath tile quality) ;;;
     ret [WriteTile tilePath JPEG tile quality]) ic.

Definition emitLevel `{Libraries} (imageFiles : string) (level : Z)
  : C (list event) :=
  levelDir <- getOrCreatePath
                (path_Join imageFiles (GoStrings.Itoa level)) ;;
  levelImage <- getImage level ;;
  cr <- on_dzid (getNumTiles level) ;;
  let '(columns, rows) := cr in
  tiles <- for_range columns (fun column =>
             for_range rows (fun row =>
               emitTile levelDir levelImage level column row)) ;;
  ret (EnsureDir levelDir :: tiles).

(** The loop over levels re-reads [NumLevels()] before every iteration;
    [None] means the fuel ran out before the loop ended. *)
Fixpoint level_loop `{Libraries} (fuel : nat) (imageFiles : string)
  (level : Z) : C (option (list event)) :=
  match fuel with
  | O => ret None
  | Datatypes.S fuel' =>
      n <- on_dzid NumLevels ;;
      if level <? n then
        evs <- emitLevel imageFiles level ;;
        rest <- level_loop fuel' imageFiles (GoInt.add level 1) ;;
        ret (option_map (app evs) rest)
      else ret (Some [])
  end.

Definition create `{Libraries} (fuel : nat) (destination : string)
  : C (option (list event)) :=
  imageFiles <- getOrCreatePath (getFilesPath destination) ;;
  levels <- level_loop fuel imageFiles 0 ;;
  match levels with
  | None => ret None
  | Some evs =>
      saved <- on_dzid (save destination) ;;
      ret (Some (EnsureDir imageFiles :: evs ++ [saved]))
  end.

(** The working branch of [main]: what was written, and how the run
    ended.  The log is [None] when the model does not say (the fuel ran
    out, or a panic interrupted [create]). *)
Definition run `{Libraries} (fuel : nat) (quality : Q)
  (source format : string) (tileSize overlap : Z) (destination : string)
  : option (list event) * result unit :=
  match New quality "" false source format tileSize overlap with
  | Panic e => (Some [], Panic e)
  | Ok ic =>
      match create fuel destination ic with
      | Panic e => (None, Panic e)
      | Ok (written, _) => (written, Ok tt)
      end
  end.

(** ** The resize library's thumbnail sizes

    [Thumbnail] of github.com/nfnt/resize fits the image into the box
    [maxWidth x maxHeight], keeping the aspect ratio with unsigned integer
    division; only the size of what it returns is described here. *)

Module Nfnt.

Definition ThumbnailSize (maxWidth maxHeight : Z) (orig : Z * Z)
  : Z * Z :=
  let '(origWidth, origHeight) := orig in
  if (maxWidth >=? origWidth) && (maxHeight >=? origHeight) then orig
  else
    let '(newWidth, newHeight) :=
      if origWidth >? maxWidth then
        let newHeight := origHeight * maxWidth / origWidth in
        (maxWidth, if newHeight <? 1 then 1 else newHeight)
      else (origWidth, origHeight) in
    if newHeight >? maxHeight then
      let newWidth := newWidth * maxHeight / newHeight in
      (if newWidth <? 1 then 1 else newWidth, maxHeight)
    else (newWidth, newHeight).

(** The size of [imaging.Crop(img, rect)]: the rectangle cut down to
    the image's bounds, nothing when the two do not meet. *)
Definition CropSize (img : Z * Z) (r : Rectangle) : Z * Z :=
  let '(w, h) := img in
  let minX := Z.max (X (Min r)) 0 in
  let minY := Z.max (Y (Min r)) 0 in
  let maxX := Z.min (X (Max r)) w in
  let maxY := Z.min (Y (Max r)) h in
  if (minX >=? maxX) || (minY >=? maxY) then (0, 0)
  else (maxX - minX, maxY - minY).

(** [jpeg.Encode] refuses an image with a side of 2^16 or more. *)
Definition EncodeSize (img : Z * Z) : option string :=
  if (fst img >=? 2 ^ 16) || (snd img >=? 2 ^ 16)
  then Some "jpeg: image is too large to encode"%string
  else None.

(** Images reduced to their sizes, with the libraries acting on sizes,
    on a disk that takes every directory and file. *)
Definition SizeOnly : Libraries := {|
  Raster := Z * Z;
  gg_Load := fun _ _ => inr "no such file"%string;
  Bounds := fun img => img;
  resize_Thumbnail := fun w h img _ => ThumbnailSize w h img;
  imaging_Crop := CropSize;
  path_Join := fun a b => (a ++ "/" ++ b)%string;
  jpeg_Quality := fun q => GoMath.to_int (GoMath.round (q * 100));
  os_NotExist := fun _ => true;
  os_MkdirAll := fun _ => None;
  os_Create := fun _ => None;
  jpeg_Encode := fun _ tile _ => EncodeSize tile;
  template_Execute := fun _ _ => None
|}.

(** A creator over a 5 x 3 source, as [New] would leave it. *)
Definition small_creator : @ImageCreator SizeOnly :=
  @mkCreator SizeOnly (newDescriptor 5 3 256 0 "jpg") (5, 3) (3 # 4) ""
             false.

(** The same source, configured with the format "png". *)
Definition png_creator : @ImageCreator SizeOnly :=
  @mkCreator SizeOnly (newDescriptor 5 3 256 0 "png") (5, 3) (3 # 4) ""
             false.

End Nfnt.

(** ** Exact-arithmetic reading of the methods

    The integer functions below are what the methods compute when nothing
    wraps; [in_range] delimits the descriptors for which that is the case
    and for which the float64 model above is exact.  The sides of an
    image that Go's JPEG and PNG decoders return are below 2^31; the tile
    size and the overlap are taken in the same range.  There every
    product and sum stays far below 2^53, and the logarithm of a side
    that is not a power of two is further from an integer than float64
    rounding can bridge. *)

(** Ceiling of [a / b] for [b > 0]. *)
Definition cdiv (a b : Z) : Z := - ((- a) / b).

Definition bound : Z := 2 ^ 31.

Record in_range (d : DeepZoomImageDescriptor) : Prop := mkInRange {
  range_Width : 0 < Width d < bound;
  range_Height : 0 < Height d < bound;
  range_TileSize : 0 < TileSize d < bound;
  range_Overlap : 0 <= Overlap d < bound
}.

Definition maxDimension (d : DeepZoomImageDescriptor) : Z :=
  Z.max (Height d) (Width d).

Definition levels (d : DeepZoomImageDescriptor) : Z :=
  Z.log2_up (maxDimension d) + 1.

(** The cache is either still empty or holds the level count. *)
Definition cache_ok (d : DeepZoomImageDescriptor) : Prop :=
  numLevels d = 0 \/ numLevels d = levels d.

Definition well_formed (d : DeepZoomImageDescriptor) : Prop :=
  in_range d /\ cache_ok d.

(** The descriptor once its cache has been filled. *)
Definition filled (d : DeepZoomImageDescriptor) : DeepZoomImageDescriptor :=
  set_numLevels (levels d) d.

Definition level_width (d : DeepZoomImageDescriptor) (level : Z) : Z :=
  cdiv (Width d) (2 ^ (levels d - 1 - level)).
Definition level_height (d : DeepZoomImageDescriptor) (level : Z) : Z :=
  cdiv (Height d) (2 ^ (levels d - 1 - level)).

Definition columns (d : DeepZoomImageDescriptor) (level : Z) : Z :=
  cdiv (level_width d level) (TileSize d).
Definition rows (d : DeepZoomImageDescriptor) (level : Z) : Z :=
  cdiv (level_height d level) (TileSize d).

(** Leading offset of a tile on one axis, and the number of its
    neighbours on that axis. *)
Definition lead (d : DeepZoomImageDescriptor) (c : Z) : Z :=
  if c =? 0 then 0 else Overlap d.

Definition tile_min (d : DeepZoomImageDescriptor) (c : Z) : Z :=
  c * TileSize d - lead d c.
Definition tile_len (d : DeepZoomImageDescriptor) (extent c : Z) : Z :=
  Z.min (TileSize d + (if c =? 0 then 1 else 2) * Overlap d)
        (extent - tile_min d c).
Definition tile_rect (d : DeepZoomImageDescriptor) (level c r : Z)
  : Rectangle :=
  let x := tile_min d c in
  let y := tile_min d r in
  mkRect (mkPoint x y)
         (mkPoint (x + tile_len d (level_width d level) c)
                  (y + tile_len d (level_height d level) r)).


Definition valid_level (d : DeepZoomImageDescriptor) (level : Z) : Prop :=
  0 <= level < levels d.

(** The creator once its descriptor's cache has been filled. *)
Definition fill `{Libraries} (ic : ImageCreator) : ImageCreator :=
  set_dzid (filled (dzid ic)) ic.

(** ** What a run writes *)

(** The indices [i, i+1, ..., i+n-1] of a counted loop. *)
Fixpoint zrange (i : Z) (n : nat) : list Z :=
  match n with
  | O => []
  | S n' => i :: zrange (i + 1) n'
  end.

(** Where the tile of a coordinate goes. *)
Definition tilePath `{Libraries} (destination : string)
  (level column row : Z) (format : string) : string :=
  path_Join (path_Join (getFilesPath destination) (GoStrings.Itoa level))
            (tileName column row format).

(** The raster that tiles of a level are cut from. *)
Definition level_raster `{Libraries} (ic : ImageCreator) (level : Z)
  : Raster :=
  if (Width (dzid ic) =? level_width (dzid ic) level)
     && (Height (dzid ic) =? level_height (dzid ic) level)
  then Image ic
  else resize_Thumbnail
         (level_width (dzid ic) level) (level_height (dzid ic) level)
         (Image ic)
         (lookup RESIZE_FILTERS (obtainFilter (ResizeFilter ic))).

Definition tile_event `{Libraries} (ic : ImageCreator)
  (destination : string) (level column row : Z) : event :=
  WriteTile (tilePath destination level column row (Format (dzid ic)))
            JPEG
            (imaging_Crop (level_raster ic level)
                          (tile_rect (dzid ic) level column row))
            (jpeg_Quality (ImageQuality ic)).

Definition level_events `{Libraries} (ic : ImageCreator)
  (destination : string) (level : Z) : list event :=
  EnsureDir (path_Join (getFilesPath destination) (GoStrings.Itoa level))
  :: flat_map
       (fun column =>
          flat_map (fun row => [tile_event ic destination level column row])
                   (zrange 0 (Z.to_nat (rows (dzid ic) level))))
       (zrange 0 (Z.to_nat (columns (dzid ic) level))).

Definition pyramid_events `{Libraries} (ic : ImageCreator)
  (destination : string) : list event :=
  EnsureDir (getFilesPath destination)
  :: flat_map (level_events ic destination)
              (zrange 0 (Z.to_nat (levels (dzid ic))))
     ++ [SaveDescriptor destination (filled (dzid ic))].

(** The error, if any, that the library calls behind an event return. *)
Definition event_error `{Libraries} (e : event) : option string :=
  match e with
  | EnsureDir p => if os_NotExist p then os_MkdirAll p else None
  | WriteTile p _ tile quality =>
      match os_Create p with
      | Some msg => Some msg
      | None => jpeg_Encode p tile quality
      end
  | SaveDescriptor p d =>
      match os_Create p with
      | Some msg => Some msg
      | None => template_Execute p d
      end
  end.

(** None of the calls behind the events returns an error. *)
Definition calls_succeed `{Libraries} (l : list event) : bool :=
  forallb (fun e => match event_error e with None => true | _ => false end)
          l.

(** An error message that one of the fallible library calls returns. *)
Definition library_error `{Libraries} (msg : string) : Prop :=
  (exists p, os_MkdirAll p = Some msg) \/
  (exists p, os_Create p = Some msg) \/
  (exists p tile quality, jpeg_Encode p tile quality = Some msg) \/
  (exists p d, template_Execute p d = Some msg).

(** A computation emits [evs] from [s] to [s']: either no call behind
    the events fails and it returns them, or it panics with the error of
    a call behind one of them. *)
Definition emits `{Libraries} {S} (m : ST S (list event)) (s s' : S)
  (evs : list event) : Prop :=
  (calls_succeed evs = true /\ m s = Ok (evs, s')) \/
  (exists e msg,
      In e evs /\ event_error e = Some msg /\
      m s = Panic (External msg)).

(** ** The rest of the descriptor's interface *)

Module Descriptor.

(** [DeepZoomImageDescriptor.New]: sets the tiling parameters of the
    receiver and returns the receiver. *)
Definition New (tileSize overlap : Z) (format : string)
  : M DeepZoomImageDescriptor :=
  fun d =>
    let d' := mkDzid format overlap tileSize (Height d) (Width d)
                     (numLevels d) in
    Ok (d', d').

End Descriptor.

(** The exported fields of two descriptors agree. *)
Definition same_fields (d d' : DeepZoomImageDescriptor) : Prop :=
  Format d' = Format d /\ Overlap d' = Overlap d /\
  TileSize d' = TileSize d /\ Height d' = Height d /\ Width d' = Width d.

(** A method settles on [d]: when it returns, the exported fields are
    untouched, the cache holds what [NumLevels()] answers, and calling it
    again on the descriptor it left answers the same and changes nothing
    more. *)
Definition settles {A} (m : M A) (d : DeepZoomImageDescriptor) : Prop :=
  forall a d',
    m d = Ok (a, d') ->
    same_fields d d' /\
    eval NumLevels d = Ok (numLevels d') /\
    m d' = Ok (a, d').

(** ** Counting what a run writes *)

Definition is_tile `{Libraries} (e : event) : bool :=
  match e with WriteTile _ _ _ _ => true | _ => false end.

Definition is_dir `{Libraries} (e : event) : bool :=
  match e with EnsureDir _ => true | _ => false end.

(** The number of tiles that [getNumTiles] announces for a level. *)
Definition tiles_at (d : DeepZoomImageDescriptor) (level : Z) : Z :=
  match eval (getNumTiles level) d with
  | Ok (cols, rws) => cols * rws
  | Panic _ => 0
  end.

Definition sum_Z (l : list Z) : Z := fold_right Z.add 0 l.

(** No character of [s] is [c]. *)
Fixpoint lacks (c : ascii) (s : string) : Prop :=
  match s with
  | EmptyString => True
  | String a rest => a <> c /\ lacks c rest
  end.

(** ** A file system with one picture

    Libraries acting on sizes, as in [Nfnt.SizeOnly], whose decoders find
    a 700 x 500 picture at "photo.jpg" and nothing elsewhere. *)

Module Demo.

Definition OnePicture : Libraries := {|
  Raster := Z * Z;
  gg_Load := fun _ p =>
               if (p =? "photo.jpg")%string then inl (700, 500)
               else inr "no such file"%string;
  Bounds := fun img => img;
  resize_Thumbnail := fun w h img _ => Nfnt.ThumbnailSize w h img;
  imaging_Crop := Nfnt.CropSize;
  path_Join := fun a b => (a ++ "/" ++ b)%string;
  jpeg_Quality := fun q => GoMath.to_int (GoMath.round (q * 100));
  os_NotExist := fun _ => true;
  os_MkdirAll := fun _ => None;
  os_Create := fun _ => None;
  jpeg_Encode := fun _ tile _ => Nfnt.EncodeSize tile;
  template_Execute := fun _ _ => None
|}.

(** A creator over the picture, configured with the format "png", as
    [New] would leave it. *)
Definition png_creator : @ImageCreator OnePicture :=
  @mkCreator OnePicture (newDescriptor 700 500 256 1 "png") (700, 500)
             (3 # 4) "" false.

End Demo.

(** ** The descriptor file *)

(** The double-quote character. *)
Definition dq : ascii := "034"%char.

(** An attribute value between double quotes. *)
Definition quoted (s : string) : string :=
  String dq (s ++ String dq "")%string.

(** The text that [dzid.save] writes: [DZITemplate] executed on the
    descriptor, each field printed as [text/template] prints a string or
    an int. *)
Definition DZITemplate (d : DeepZoomImageDescriptor) : string :=
  ("<?xml version=" ++ quoted "1.0" ++ " ?><Image Format="
   ++ quoted (Format d)
   ++ " Overlap=" ++ quoted (GoStrings.Itoa (Overlap d))
   ++ " TileSize=" ++ quoted (GoStrings.Itoa (TileSize d))
   ++ " xmlns=" ++ quoted "http://schemas.microsoft.com/deepzoom/2008"
   ++ "><Size Height=" ++ quoted (GoStrings.Itoa (Height d))
   ++ " Width=" ++ quoted (GoStrings.Itoa (Width d))
   ++ "/></Image>")%string.

(** ** The thumbnail sheet

    The second program of the repository pastes down-sampled frames into
    one sheet.  Its index arithmetic is sequential: a loop hands a grid
    cell and a frame number to one goroutine per sampled frame, and a
    second loop receives as many results as the channel was made for.
    What the goroutines decode and when they deliver is left out. *)

Module Sheet.

Inductive outcome (A : Type) : Type :=
| Done (a : A)
| DivideByZero         (* runtime error: integer divide by zero *)
| ChanSizeOutOfRange   (* makechan: size out of range *)
| OutOfFuel.           (* the loop did not end within the fuel *)
Arguments Done {A} a.
Arguments DivideByZero {A}.
Arguments ChanSizeOutOfRange {A}.
Arguments OutOfFuel {A}.

Definition and_then {A B} (o : outcome A) (k : A -> outcome B) : outcome B :=
  match o with
  | Done a => k a
  | DivideByZero => DivideByZero
  | ChanSizeOutOfRange => ChanSizeOutOfRange
  | OutOfFuel => OutOfFuel
  end.

(** [x / y] on ints: truncated towards zero; the most negative int
    divided by -1 wraps. *)
Definition quo (x y : Z) : outcome Z :=
  if y =? 0 then DivideByZero else Done (GoInt.wrap (Z.quot x y)).

Definition divmod (numerator denominator : Z) : outcome (Z * Z) :=
  if denominator =? 0 then DivideByZero
  else Done (GoInt.wrap (Z.quot numerator denominator),
             Z.rem numerator denominator).

(** [generateFinImage]: the bounds of the sheet it allocates. *)
Definition generateFinImage
  (thumbnailWidth thumbnailHeight columnLength rowWidth : Z) : Rectangle :=
  mkRect (mkPoint 0 0)
         (mkPoint (GoInt.mul thumbnailWidth rowWidth)
                  (GoInt.mul thumbnailHeight columnLength)).

(** The arguments one goroutine is started with. *)
Record job : Type := mkJob { job_row : Z; job_column : Z; job_index : Z }.

(** Where [handleSingleImage] positions a thumbnail of the given size,
    and the rectangle the receiving loop draws it into. *)
Definition position (width height : Z) (j : job) : Point :=
  mkPoint (GoInt.mul (job_row j) width) (GoInt.mul (job_column j) height).

Definition drawn (width height : Z) (j : job) : Rectangle :=
  let p := position width height j in
  mkRect p (mkPoint (GoInt.add (X p) width) (GoInt.add (Y p) height)).

(** The launching loop of [generateJPG], from frame number [i] on, with
    the current values of [row] and [column]. *)
Fixpoint launch (fuel : nat) (imgNum sampleInterval columnLength : Z)
  (i row column : Z) : outcome (list job * (Z * Z)) :=
  match fuel with
  | O => OutOfFuel
  | S fuel' =>
      if i <=? GoInt.sub imgNum sampleInterval then
        and_then (quo i sampleInterval) (fun k =>
        and_then (divmod k columnLength) (fun rc =>
        let '(row', column') := rc in
        and_then (launch fuel' imgNum sampleInterval columnLength
                         (GoInt.add i sampleInterval) row' column')
                 (fun rest =>
                    Done (mkJob row' column' i :: fst rest, snd rest))))
      else Done ([], (row, column))
  end.

(** What [generateJPG] sets up around the goroutines. *)
Record plan : Type := mkPlan {
  capacity : Z;        (* the channel's buffer size *)
  jobs : list job;     (* the goroutines started, in order *)
  sheet : Rectangle;   (* the bounds of the final image *)
  receives : Z         (* how many results the second loop waits for *)
}.

Definition generateJPG (fuel : nat)
  (imgNum sampleInterval columnLength thumbnailWidth thumbnailHeight : Z)
  : outcome plan :=
  and_then (quo imgNum sampleInterval) (fun size =>
  if size <? 0 then ChanSizeOutOfRange else
  and_then (launch fuel imgNum sampleInterval columnLength 0 0 0)
    (fun launched =>
       let '(started, (row, _)) := launched in
       let finImage :=
         generateFinImage thumbnailWidth thumbnailHeight columnLength
                          (GoInt.add row 1) in
       and_then (quo imgNum sampleInterval) (fun count =>
       Done (mkPlan size started finImage count)))).

(** Two rectangles have no pixel in common. *)
Definition disjoint (a b : Rectangle) : Prop :=
  forall px py, ~ (In_rect px py a /\ In_rect px py b).

(** Every pixel of [a] is a pixel of [b]. *)
Definition inside (a b : Rectangle) : Prop :=
  forall px py, In_rect px py a -> In_rect px py b.

(** The job of the [k]-th sampled frame on a grid [columnLength] deep. *)
Definition nth_job (sampleInterval columnLength k : Z) : job :=
  mkJob (k / columnLength) (k mod columnLength) (k * sampleInterval).

End Sheet.

(** * Lemmas *)

(** ** Integers and floats *)

Lemma wrap_small z :
  GoInt.min_int <= z <= GoInt.max_int -> GoInt.wrap z = z.
Proof.
  unfold GoInt.wrap, GoInt.min_int, GoInt.max_int. intros Hz.
  rewrite Z.mod_small; lia.
Qed.

Lemma to_int_of_int z : GoMath.to_int (GoMath.of_int z) = z.
Proof. unfold GoMath.to_int, GoMath.of_int. cbn. apply Z.quot_1_r. Qed.

Lemma Max_of_int a b :
  GoMath.Max (GoMath.of_int a) (GoMath.of_int b) = GoMath.of_int (Z.max a b).
Proof.
  unfold GoMath.Max, GoMath.of_int, Qmax, GenericMinMax.gmax, Z.max, Qcompare.
  cbn. rewrite !Z.mul_1_r. destruct (a ?= b); reflexivity.
Qed.

Lemma Min_of_int a b :
  GoMath.Min (GoMath.of_int a) (GoMath.of_int b) = GoMath.of_int (Z.min a b).
Proof.
  unfold GoMath.Min, GoMath.of_int, Qmin, GenericMinMax.gmin, Z.min, Qcompare.
  cbn. rewrite !Z.mul_1_r. destruct (a ?= b); reflexivity.
Qed.

Lemma to_int_Ceil q : GoMath.to_int (GoMath.Ceil q) = Qceiling q.
Proof. unfold GoMath.Ceil. apply (to_int_of_int (Qceiling q)). Qed.

Lemma cdiv_spec a b :
  0 < b -> b * (cdiv a b - 1) < a <= b * cdiv a b.
Proof.
  intros Hb. unfold cdiv.
  pose proof (Z.div_mod (- a) b ltac:(lia)) as E.
  pose proof (Z.mod_pos_bound (- a) b Hb) as R.
  nia.
Qed.

Lemma cdiv_unique a b q :
  0 < b -> b * (q - 1) < a <= b * q -> cdiv a b = q.
Proof.
  intros Hb Hq. pose proof (cdiv_spec a b Hb) as S. nia.
Qed.

Lemma cdiv_1_r a : cdiv a 1 = a.
Proof. apply cdiv_unique; lia. Qed.

Lemma cdiv_pos a b : 0 < b -> 0 < a -> 0 < cdiv a b.
Proof. intros Hb Ha. pose proof (cdiv_spec a b Hb). nia. Qed.

Lemma cdiv_le a b : 0 < b -> 0 < a -> cdiv a b <= a.
Proof. intros Hb Ha. pose proof (cdiv_spec a b Hb). nia. Qed.

Lemma Qceiling_div a b :
  0 < b -> Qceiling (inject_Z a / inject_Z b) = cdiv a b.
Proof.
  intros Hb. unfold Qceiling, cdiv. f_equal.
  rewrite Zdiv_Qdiv. apply Qfloor_comp.
  rewrite inject_Z_opp. unfold Qdiv. ring.
Qed.

Lemma Qpower_half k :
  0 <= k -> ((1 # 2) ^ k == / inject_Z (2 ^ k))%Q.
Proof.
  intros Hk. rewrite Zpower_Qpower by exact Hk.
  change (1 # 2)%Q with (/ inject_Z 2)%Q.
  apply Qinv_power.
Qed.

Lemma Qceiling_scale a k :
  0 <= k -> Qceiling (inject_Z a * (1 # 2) ^ k) = cdiv a (2 ^ k).
Proof.
  intros Hk. rewrite <- Qceiling_div by (apply Z.pow_pos_nonneg; lia).
  apply Qceiling_comp. rewrite (Qpower_half k Hk). reflexivity.
Qed.

(** ** The cache *)

Lemma levels_bounds d : in_range d -> 1 <= levels d <= 32.
Proof.
  intros [HW HH _ _]. unfold levels, maxDimension, bound in *.
  pose proof (Z.log2_up_nonneg (Z.max (Height d) (Width d))).
  assert (Z.log2_up (Z.max (Height d) (Width d)) <= 31).
  { apply Z.log2_up_le_pow2; lia. }
  lia.
Qed.

Lemma levels_filled d : levels (filled d) = levels d.
Proof. reflexivity. Qed.

Lemma filled_idem d : filled (filled d) = filled d.
Proof. reflexivity. Qed.

Lemma filled_cached d : numLevels d = levels d -> filled d = d.
Proof. destruct d; unfold filled, set_numLevels; cbn. intros ->. reflexivity. Qed.

Lemma well_formed_filled d : well_formed d -> well_formed (filled d).
Proof.
  intros [[HW HH HT HO] _]. split.
  - constructor; assumption.
  - right. reflexivity.
Qed.

Lemma well_formed_new w h t o f :
  0 < w < bound -> 0 < h < bound -> 0 < t < bound -> 0 <= o < bound ->
  well_formed (newDescriptor w h t o f).
Proof.
  intros. split; [constructor; assumption | left; reflexivity].
Qed.

Lemma NumLevels_run d :
  well_formed d -> NumLevels d = Ok (levels d, filled d).
Proof.
  intros [R C]. pose proof (levels_bounds d R) as B.
  unfold NumLevels. destruct (numLevels d =? 0) eqn:E.
  - rewrite Max_of_int, to_int_of_int.
    unfold GoMath.CeilLog2, GoMath.of_int. rewrite Qceiling_Z.
    change (inject_Z ?z) with (GoMath.of_int z). rewrite to_int_of_int.
    unfold GoInt.add. rewrite wrap_small.
    + reflexivity.
    + fold (maxDimension d). fold (levels d).
      unfold GoInt.min_int, GoInt.max_int. lia.
  - apply Z.eqb_neq in E. destruct C as [C | C]; [contradiction |].
    rewrite (filled_cached d C), C. reflexivity.
Qed.

(** ** What each method returns *)

Lemma bind_Ok {S A B} (m : ST S A) (k : A -> ST S B) d a d' :
  m d = Ok (a, d') -> bind m k d = k a d'.
Proof. unfold bind. intros ->. reflexivity. Qed.

Lemma bind_Panic {S A B} (m : ST S A) (k : A -> ST S B) d e :
  m d = Panic e -> bind m k d = Panic e.
Proof. unfold bind. intros ->. reflexivity. Qed.

Lemma level_test d level :
  (level <? 0) || (level >=? levels d) = false <-> valid_level d level.
Proof.
  unfold valid_level. rewrite orb_false_iff, Z.ltb_ge, Z.geb_leb, Z.leb_gt.
  reflexivity.
Qed.

Lemma pyramidLevelCheck_run d level :
  well_formed d ->
  pyramidLevelCheck level d =
  if (level <? 0) || (level >=? levels d)
  then Panic InvalidLevel else Ok (tt, filled d).
Proof.
  intros WF. unfold pyramidLevelCheck.
  rewrite (bind_Ok _ _ _ _ _ (NumLevels_run d WF)).
  destruct ((level <? 0) || (level >=? levels d)); reflexivity.
Qed.

Lemma pyramidLevelCheck_valid d level :
  well_formed d -> valid_level d level ->
  pyramidLevelCheck level d = Ok (tt, filled d).
Proof.
  intros WF V. rewrite pyramidLevelCheck_run by exact WF.
  apply level_test in V. rewrite V. reflexivity.
Qed.

Lemma pyramidLevelCheck_invalid d level :
  well_formed d -> ~ valid_level d level ->
  pyramidLevelCheck level d = Panic InvalidLevel.
Proof.
  intros WF V. rewrite pyramidLevelCheck_run by exact WF.
  destruct ((level <? 0) || (level >=? levels d)) eqn:E; [reflexivity |].
  apply level_test in E. contradiction.
Qed.

Lemma getScale_run d level :
  well_formed d -> valid_level d level ->
  getScale level d =
  Ok (GoMath.Pow (1 # 2) (levels d - 1 - level), filled d).
Proof.
  intros WF V. pose proof (well_formed_filled d WF) as WF'.
  pose proof (levels_bounds d (proj1 WF)) as B.
  unfold getScale.
  rewrite (bind_Ok _ _ _ _ _ (pyramidLevelCheck_valid d level WF V)).
  rewrite (bind_Ok _ _ _ _ _ (NumLevels_run _ WF')).
  rewrite levels_filled, filled_idem. unfold ret, GoInt.sub.
  unfold valid_level in V.
  rewrite (wrap_small (levels d - 1))
    by (unfold GoInt.min_int, GoInt.max_int; lia).
  rewrite wrap_small by (unfold GoInt.min_int, GoInt.max_int; lia).
  reflexivity.
Qed.

Lemma getDimensions_run d level :
  well_formed d -> valid_level d level ->
  getDimensions level d =
  Ok ((level_width d level, level_height d level), filled d).
Proof.
  intros WF V. pose proof (well_formed_filled d WF) as WF'.
  assert (V' : valid_level (filled d) level) by exact V.
  unfold getDimensions.
  rewrite (bind_Ok _ _ _ _ _ (pyramidLevelCheck_valid d level WF V)).
  rewrite (bind_Ok _ _ _ _ _ (getScale_run _ level WF' V')).
  rewrite levels_filled, filled_idem. rewrite !to_int_Ceil.
  unfold GoMath.of_int, GoMath.Pow. unfold valid_level in V.
  rewrite !Qceiling_scale by lia. reflexivity.
Qed.

Lemma getNumTiles_run d level :
  well_formed d -> valid_level d level ->
  getNumTiles level d = Ok ((columns d level, rows d level), filled d).
Proof.
  intros WF V. pose proof (well_formed_filled d WF) as WF'.
  assert (V' : valid_level (filled d) level) by exact V.
  unfold getNumTiles.
  rewrite (bind_Ok _ _ _ _ _ (pyramidLevelCheck_valid d level WF V)).
  rewrite (bind_Ok _ _ _ _ _ (getDimensions_run _ level WF' V')).
  rewrite filled_idem. rewrite !to_int_Ceil. unfold GoMath.of_int.
  destruct WF as [[_ _ HT _] _].
  rewrite !Qceiling_div by (cbn; lia). reflexivity.
Qed.

(** ** Level sizes and tile counts *)

Lemma level_width_bounds d level :
  in_range d -> valid_level d level ->
  0 < level_width d level <= Width d.
Proof.
  intros [HW _ _ _] [V1 V2]. unfold level_width.
  assert (0 < 2 ^ (levels d - 1 - level)) by (apply Z.pow_pos_nonneg; lia).
  split; [apply cdiv_pos | apply cdiv_le]; lia.
Qed.

Lemma level_height_bounds d level :
  in_range d -> valid_level d level ->
  0 < level_height d level <= Height d.
Proof.
  intros [_ HH _ _] [V1 V2]. unfold level_height.
  assert (0 < 2 ^ (levels d - 1 - level)) by (apply Z.pow_pos_nonneg; lia).
  split; [apply cdiv_pos | apply cdiv_le]; lia.
Qed.

Lemma tile_start_lt d extent c :
  0 < TileSize d -> c < cdiv extent (TileSize d) -> c * TileSize d < extent.
Proof.
  intros HT Hc. pose proof (cdiv_spec extent (TileSize d) HT). nia.
Qed.

(** One axis of [getTileBounds]: for a coordinate that [getNumTiles]
    produces, no integer operation wraps. *)
Lemma axis_exact d extent c :
  in_range d -> 0 < extent < bound ->
  0 <= c < cdiv extent (TileSize d) ->
  let offset := if c =? 0 then 0 else Overlap d in
  let factor := if c =? 0 then 1 else 2 in
  let x := GoInt.sub (GoInt.mul c (TileSize d)) offset in
  let w := GoInt.add (TileSize d) (GoInt.mul factor (Overlap d)) in
  let w' := GoMath.to_int
              (GoMath.Min (GoMath.of_int w)
                          (GoMath.of_int (GoInt.sub extent x))) in
  x = tile_min d c /\ GoInt.add x w' = tile_min d c + tile_len d extent c.
Proof.
  intros [_ _ HT HO] HE Hc. unfold bound in *.
  pose proof (tile_start_lt d extent c (proj1 HT) (proj2 Hc)) as Hlt.
  assert (H0 : 0 <= c * TileSize d) by nia.
  cbv zeta. unfold tile_len, tile_min, lead.
  set (offset := if c =? 0 then 0 else Overlap d).
  set (factor := if c =? 0 then 1 else 2).
  assert (Hoff : 0 <= offset < 2 ^ 31) by (subst offset; destruct (c =? 0); lia).
  assert (Hfac : 1 <= factor <= 2) by (subst factor; destruct (c =? 0); lia).
  unfold GoInt.sub, GoInt.mul, GoInt.add.
  rewrite (wrap_small (c * TileSize d))
    by (unfold GoInt.min_int, GoInt.max_int; lia).
  rewrite (wrap_small (c * TileSize d - offset))
    by (unfold GoInt.min_int, GoInt.max_int; lia).
  rewrite (wrap_small (factor * Overlap d))
    by (unfold GoInt.min_int, GoInt.max_int; nia).
  rewrite (wrap_small (TileSize d + factor * Overlap d))
    by (unfold GoInt.min_int, GoInt.max_int; nia).
  rewrite (wrap_small (extent - (c * TileSize d - offset)))
    by (unfold GoInt.min_int, GoInt.max_int; lia).
  rewrite Min_of_int, to_int_of_int.
  split; [reflexivity |].
  apply wrap_small. unfold GoInt.min_int, GoInt.max_int. nia.
Qed.

Lemma getTileBounds_run d level column row :
  well_formed d -> valid_level d level ->
  0 <= column < columns d level -> 0 <= row < rows d level ->
  getTileBounds level column row d =
  Ok (tile_rect d level column row, filled d).
Proof.
  intros WF V Hc Hr. pose proof (well_formed_filled d WF) as WF'.
  assert (V' : valid_level (filled d) level) by exact V.
  destruct WF as [R C].
  pose proof (level_width_bounds d level R V) as BW.
  pose proof (level_height_bounds d level R V) as BH.
  assert (EW : 0 < level_width d level < bound) by (destruct R; lia).
  assert (EH : 0 < level_height d level < bound) by (destruct R; lia).
  destruct (axis_exact d _ column R EW Hc) as [Ex Ew].
  destruct (axis_exact d _ row R EH Hr) as [Ey Eh].
  unfold getTileBounds.
  rewrite (bind_Ok _ _ _ _ _ (pyramidLevelCheck_valid d level (conj R C) V)).
  cbv beta zeta.
  rewrite (bind_Ok _ _ _ _ _ (getDimensions_run _ level WF' V')).
  rewrite filled_idem.
  change (Overlap (filled d)) with (Overlap d).
  change (TileSize (filled d)) with (TileSize d).
  change (level_width (filled d) level) with (level_width d level).
  change (level_height (filled d) level) with (level_height d level).
  rewrite Ew, Eh, Ex, Ey. reflexivity.
Qed.

(** Whatever the column and row, a valid level gets a rectangle. *)
Lemma getTileBounds_total d level column row :
  well_formed d -> valid_level d level ->
  exists b, getTileBounds level column row d = Ok (b, filled d).
Proof.
  intros WF V. pose proof (well_formed_filled d WF) as WF'.
  assert (V' : valid_level (filled d) level) by exact V.
  unfold getTileBounds.
  rewrite (bind_Ok _ _ _ _ _ (pyramidLevelCheck_valid d level WF V)).
  cbv beta zeta.
  rewrite (bind_Ok _ _ _ _ _ (getDimensions_run _ level WF' V')).
  rewrite filled_idem. eexists. reflexivity.
Qed.

Lemma eval_Ok {S A} (m : ST S A) s a s' :
  m s = Ok (a, s') -> eval m s = Ok a.
Proof. unfold eval. intros ->. reflexivity. Qed.

Lemma eval_Panic {S A} (m : ST S A) s e :
  m s = Panic e -> eval m s = Panic e.
Proof. unfold eval. intros ->. reflexivity. Qed.

Lemma eval_NumLevels d : well_formed d -> eval NumLevels d = Ok (levels d).
Proof. intros WF. apply (eval_Ok _ _ _ _ (NumLevels_run d WF)). Qed.

(** ** The level count as a ceiling logarithm *)

Lemma log2_up_least m n :
  0 < m -> 0 <= n -> m <= 2 ^ n -> Z.log2_up m <= n.
Proof. intros Hm Hn H. apply Z.log2_up_le_pow2; assumption. Qed.

Lemma log2_up_covers m : 0 < m -> m <= 2 ^ Z.log2_up m.
Proof. intros Hm. apply (Z.log2_log2_up_spec m Hm). Qed.

Lemma log2_up_floor m :
  0 < m ->
  Z.log2_up m = if m =? 2 ^ Z.log2 m then Z.log2 m else Z.log2 m + 1.
Proof.
  intros Hm.
  pose proof (Z.log2_log2_up_spec m Hm) as [Lo Hi].
  pose proof (Z.le_log2_log2_up m) as L1.
  pose proof (Z.le_log2_up_succ_log2 m) as L2.
  destruct (m =? 2 ^ Z.log2 m) eqn:E.
  - apply Z.eqb_eq in E. symmetry.
    apply Z.log2_log2_up_exact; [exact Hm | exists (Z.log2 m); exact E].
  - apply Z.eqb_neq in E.
    destruct (Z.eq_dec (Z.log2_up m) (Z.log2 m)) as [Q | Q]; [| lia].
    rewrite Q in Hi. lia.
Qed.

(** * The level count *)

(** C1, as the specification words it, at a 640 x 480 source: the
    program counts 11 levels, while floor(log2(640)) + 1 is 10. *)
Lemma C1_floor_formula_fails :
  eval NumLevels (newDescriptor 640 480 256 0 "jpg") = Ok 11 /\
  eval NumLevels (newDescriptor 640 480 256 0 "jpg")
  <> Ok (Z.log2 (Z.max 640 480) + 1).
Proof. split; [reflexivity | discriminate]. Qed.

(** C1, amended.  For a descriptor built from positive source dimensions,
    [NumLevels()] returns n + 1 where n is the ceiling of
    log2(max(width, height)): the least exponent whose power of two
    reaches the larger side.  That is floor(log2(max)) + 1 when the larger
    side is a power of two and floor(log2(max)) + 2 otherwise.  A second
    call returns the same number from the cache. *)
Theorem C1_NumLevels_is_ceiling_log2 d :
  well_formed d ->
  let m := Z.max (Width d) (Height d) in
  exists n,
    eval NumLevels d = Ok (n + 1) /\
    eval (NumLevels ;;; NumLevels) d = Ok (n + 1) /\
    0 <= n /\ m <= 2 ^ n /\
    (forall k, 0 <= k -> m <= 2 ^ k -> n <= k) /\
    n = (if m =? 2 ^ Z.log2 m then Z.log2 m else Z.log2 m + 1).
Proof.
  intros WF m. pose proof (well_formed_filled d WF) as WF'.
  assert (Em : maxDimension d = m) by (unfold maxDimension, m; lia).
  assert (Hm : 0 < m) by (destruct WF as [[? ? ? ?] _]; unfold m; lia).
  exists (Z.log2_up m). repeat split.
  - rewrite eval_NumLevels by exact WF. unfold levels. rewrite Em. reflexivity.
  - unfold eval. rewrite (bind_Ok _ _ _ _ _ (NumLevels_run d WF)).
    rewrite (NumLevels_run _ WF'). rewrite levels_filled.
    unfold levels. rewrite Em. reflexivity.
  - apply Z.log2_up_nonneg.
  - apply log2_up_covers. exact Hm.
  - intros k Hk Hle. apply log2_up_least; assumption.
  - apply log2_up_floor. exact Hm.
Qed.

Lemma C1_NumLevels_is_ceiling_log2_witness :
  well_formed (newDescriptor 640 480 256 0 "jpg") /\
  exists n,
    eval NumLevels (newDescriptor 640 480 256 0 "jpg") = Ok (n + 1) /\
    eval (NumLevels ;;; NumLevels) (newDescriptor 640 480 256 0 "jpg")
    = Ok (n + 1) /\
    0 <= n /\ 640 <= 2 ^ n /\
    (forall k, 0 <= k -> 640 <= 2 ^ k -> n <= k) /\
    n = 10.
Proof.
  assert (WF : well_formed (newDescriptor 640 480 256 0 "jpg")).
  { apply well_formed_new; unfold bound; lia. }
  split; [exact WF |].
  exact (C1_NumLevels_is_ceiling_log2 _ WF).
Defined.

(** * Level dimensions *)

(** C2.  [getScale(level)] is 2^(level - (numLevels - 1)),
    [getDimensions(level)] is the pair of ceilings of width * scale and
    height * scale, and at the top level [NumLevels() - 1] it returns
    exactly (width, height). *)
Theorem C2_top_level_is_source_size d :
  well_formed d ->
  (forall level n,
      eval NumLevels d = Ok n -> 0 <= level < n ->
      exists scale,
        eval (getScale level) d = Ok scale /\
        (scale == 2 ^ (level - (n - 1)))%Q /\
        eval (getDimensions level) d
        = Ok (Qceiling (inject_Z (Width d) * scale),
              Qceiling (inject_Z (Height d) * scale))) /\
  eval (n <- NumLevels ;; getDimensions (GoInt.sub n 1)) d
  = Ok (Width d, Height d).
Proof.
  intros WF. pose proof (well_formed_filled d WF) as WF'.
  pose proof (levels_bounds d (proj1 WF)) as B. split.
  - intros level n En V. rewrite eval_NumLevels in En by exact WF.
    injection En as <-.
    exists (GoMath.Pow (1 # 2) (levels d - 1 - level)). repeat split.
    + apply (eval_Ok _ _ _ _ (getScale_run d level WF V)).
    + unfold GoMath.Pow. rewrite Qpower_half by lia.
      replace (level - (levels d - 1)) with (- (levels d - 1 - level)) by lia.
      rewrite Qpower_opp. rewrite Zpower_Qpower by lia. reflexivity.
    + rewrite (eval_Ok _ _ _ _ (getDimensions_run d level WF V)).
      unfold level_width, level_height, GoMath.Pow.
      rewrite !Qceiling_scale by lia. reflexivity.
  - unfold eval. rewrite (bind_Ok _ _ _ _ _ (NumLevels_run d WF)).
    unfold GoInt.sub.
    rewrite wrap_small by (unfold GoInt.min_int, GoInt.max_int; lia).
    assert (V : valid_level (filled d) (levels d - 1))
      by (unfold valid_level; rewrite levels_filled; lia).
    rewrite (getDimensions_run _ _ WF' V).
    unfold level_width, level_height. rewrite levels_filled.
    replace (levels d - 1 - (levels d - 1)) with 0 by lia.
    change (2 ^ 0) with 1. rewrite !cdiv_1_r. reflexivity.
Qed.

Lemma C2_top_level_is_source_size_witness :
  well_formed (newDescriptor 641 480 256 0 "jpg") /\
  eval (n <- NumLevels ;; getDimensions (GoInt.sub n 1))
       (newDescriptor 641 480 256 0 "jpg")
  = Ok (641, 480).
Proof.
  assert (WF : well_formed (newDescriptor 641 480 256 0 "jpg")).
  { apply well_formed_new; unfold bound; lia. }
  split; [exact WF |].
  exact (proj2 (C2_top_level_is_source_size _ WF)).
Defined.

(** * Level validation *)

(** C7.  With n the value of [NumLevels()], each of [getScale],
    [getDimensions], [getNumTiles] and [getTileBounds] panics with the
    invalid-level error when the level is outside [0, n) and returns a
    value when it is inside; [getTileBounds] does so for every column and
    row, which it never checks. *)
Theorem C7_level_is_the_only_check d :
  well_formed d ->
  forall n level,
    eval NumLevels d = Ok n ->
    (0 <= level < n ->
     (exists s, eval (getScale level) d = Ok s) /\
     (exists wh, eval (getDimensions level) d = Ok wh) /\
     (exists cr, eval (getNumTiles level) d = Ok cr) /\
     (forall column row,
         exists b, eval (getTileBounds level column row) d = Ok b)) /\
    (~ 0 <= level < n ->
     eval (getScale level) d = Panic InvalidLevel /\
     eval (getDimensions level) d = Panic InvalidLevel /\
     eval (getNumTiles level) d = Panic InvalidLevel /\
     (forall column row,
         eval (getTileBounds level column row) d = Panic InvalidLevel)).
Proof.
  intros WF n level En. rewrite eval_NumLevels in En by exact WF.
  injection En as <-. split.
  - intros V. repeat split.
    + eexists. apply (eval_Ok _ _ _ _ (getScale_run d level WF V)).
    + eexists. apply (eval_Ok _ _ _ _ (getDimensions_run d level WF V)).
    + eexists. apply (eval_Ok _ _ _ _ (getNumTiles_run d level WF V)).
    + intros column row.
      destruct (getTileBounds_total d level column row WF V) as [b Hb].
      exists b. apply (eval_Ok _ _ _ _ Hb).
  - intros V. pose proof (pyramidLevelCheck_invalid d level WF V) as P.
    repeat split; try intros column row; apply eval_Panic;
      apply bind_Panic; exact P.
Qed.

Lemma C7_level_is_the_only_check_witness :
  well_formed (newDescriptor 512 384 256 0 "jpg") /\
  eval NumLevels (newDescriptor 512 384 256 0 "jpg") = Ok 10 /\
  (exists b,
      eval (getTileBounds 9 1000 (-7)) (newDescriptor 512 384 256 0 "jpg")
      = Ok b) /\
  eval (getScale 10) (newDescriptor 512 384 256 0 "jpg")
  = Panic InvalidLevel /\
  eval (getDimensions (-1)) (newDescriptor 512 384 256 0 "jpg")
  = Panic InvalidLevel.
Proof.
  assert (WF : well_formed (newDescriptor 512 384 256 0 "jpg")).
  { apply well_formed_new; unfold bound; lia. }
  assert (En : eval NumLevels (newDescriptor 512 384 256 0 "jpg") = Ok 10)
    by reflexivity.
  split; [exact WF |]. split; [exact En |].
  pose proof (C7_level_is_the_only_check _ WF 10 9 En) as [In9 _].
  pose proof (C7_level_is_the_only_check _ WF 10 10 En) as [_ Out10].
  pose proof (C7_level_is_the_only_check _ WF 10 (-1) En) as [_ OutNeg].
  split; [| split].
  - apply In9. lia.
  - apply Out10. lia.
  - apply OutNeg. lia.
Defined.

(** * Tile rectangles *)


(** What the code reports for a level, in terms of the exact functions. *)
Lemma level_reports d n level lw lh cols rws :
  well_formed d ->
  eval NumLevels d = Ok n -> 0 <= level < n ->
  eval (getDimensions level) d = Ok (lw, lh) ->
  eval (getNumTiles level) d = Ok (cols, rws) ->
  valid_level d level /\
  lw = level_width d level /\ lh = level_height d level /\
  cols = columns d level /\ rws = rows d level.
Proof.
  intros WF En V ED EN. rewrite eval_NumLevels in En by exact WF.
  injection En as <-.
  rewrite (eval_Ok _ _ _ _ (getDimensions_run d level WF V)) in ED.
  rewrite (eval_Ok _ _ _ _ (getNumTiles_run d level WF V)) in EN.
  injection ED as <- <-. injection EN as <- <-.
  split; [exact V | repeat split].
Qed.





(** * Tiling of a level *)



Lemma grid_position_unique t c c' p :
  0 < t -> c * t <= p < c * t + t -> c' * t <= p < c' * t + t -> c = c'.
Proof. intros Ht H H'. nia. Qed.




(** * The filter registry *)

Lemma range_flag name order b0 :
  fold_left (fun b k => if (name =? k)%string then true else b) order b0
  = b0 || existsb (String.eqb name) order.
Proof.
  revert b0. induction order as [| k order IH]; intros b0; cbn.
  - rewrite orb_false_r. reflexivity.
  - rewrite IH. destruct (name =? k)%string, b0; reflexivity.
Qed.

Lemma existsb_Permutation {A} (f : A -> bool) l l' :
  Permutation l l' -> existsb f l = existsb f l'.
Proof.
  intros P. induction P; cbn.
  - reflexivity.
  - rewrite IHP. reflexivity.
  - destruct (f x), (f y); reflexivity.
  - congruence.
Qed.

(** The key that [obtainFilter] returns does not depend on the order in
    which the map is ranged over. *)
Lemma obtainFilter_in_order order name :
  Permutation order (map fst RESIZE_FILTERS) ->
  obtainFilter_in order name
  = if existsb (String.eqb name) (map fst RESIZE_FILTERS)
    then name else "nearest".
Proof.
  intros P. unfold obtainFilter_in. rewrite range_flag.
  rewrite (existsb_Permutation _ _ _ P). cbn [orb].
  destruct (existsb (String.eqb name) (map fst RESIZE_FILTERS)); reflexivity.
Qed.

Ltac registry_case :=
  repeat split; intros;
  first [ congruence
        | exfalso;
          match goal with
          | H : ~ _ |- _ => apply H; cbn; tauto
          end ].

(** C8.  Whatever the order in which the registry is ranged over, a
    registered name resolves to its own algorithm, and any other name
    resolves, without failing, to the key "nearest" and so to the
    nearest-neighbour algorithm. *)
Theorem C8_filter_resolution order name :
  Permutation order (map fst RESIZE_FILTERS) ->
  exists alg,
    lookup RESIZE_FILTERS (obtainFilter_in order name) = Some alg /\
    (name = "bilinear" -> alg = Bilinear) /\
    (name = "bicubic" -> alg = Bicubic) /\
    (name = "nearest" -> alg = NearestNeighbor) /\
    (name = "lanczos" -> alg = Lanczos3) /\
    (~ In name ["bilinear"; "bicubic"; "nearest"; "lanczos"] ->
     obtainFilter_in order name = "nearest" /\ alg = NearestNeighbor).
Proof.
  intros P. rewrite (obtainFilter_in_order order name P). cbn.
  destruct (String.eqb_spec name "bilinear") as [-> | N1];
    [exists Bilinear; cbn; registry_case |].
  destruct (String.eqb_spec name "bicubic") as [-> | N2];
    [exists Bicubic; cbn; registry_case |].
  destruct (String.eqb_spec name "nearest") as [-> | N3];
    [exists NearestNeighbor; cbn; registry_case |].
  destruct (String.eqb_spec name "lanczos") as [-> | N4];
    [exists Lanczos3; cbn; registry_case |].
  exists NearestNeighbor. cbn. registry_case.
Qed.

Lemma C8_filter_resolution_witness :
  Permutation ["lanczos"; "nearest"; "bicubic"; "bilinear"]
              (map fst RESIZE_FILTERS) /\
  exists alg,
    lookup RESIZE_FILTERS
           (obtainFilter_in ["lanczos"; "nearest"; "bicubic"; "bilinear"]
                            "xyz")
    = Some alg /\
    alg = NearestNeighbor.
Proof.
  assert (P : Permutation ["lanczos"; "nearest"; "bicubic"; "bilinear"]
                          (map fst RESIZE_FILTERS)).
  { apply Permutation_sym. apply (Permutation_rev (map fst RESIZE_FILTERS)). }
  split; [exact P |].
  destruct (C8_filter_resolution _ "xyz" P) as (alg & L & _ & _ & _ & _ & U).
  exists alg. split; [exact L |].
  apply U. cbn. intros [H | [H | [H | [H | []]]]]; discriminate H.
Defined.

(** * Loading the source *)

(** C10.  The empty format is not rejected: [loadImage] decodes the
    source as JPEG, exactly as for "jpg".  [New] panics with the
    unsupported-format error precisely for a format other than "", "jpg"
    and "png", and the run then ends with nothing written. *)
Theorem C10_empty_format_loads_jpeg {L : Libraries}
  (quality : Q) (filter : string) (copy : bool)
  (source : string) (tileSize overlap : Z) :
  loadImage source "" = Ok (gg_Load JPEG source) /\
  loadImage source "" = loadImage source "jpg" /\
  New quality filter copy source "" tileSize overlap
  <> Panic UnsupportedFormat /\
  (forall format,
      New quality filter copy source format tileSize overlap
      = Panic UnsupportedFormat
      <-> format <> "" /\ format <> "jpg" /\ format <> "png") /\
  (forall format fuel destination,
      format <> "" -> format <> "jpg" -> format <> "png" ->
      run fuel quality source format tileSize overlap destination
      = (Some [], Panic UnsupportedFormat)).
Proof.
  assert (Iff : forall f c format,
             New quality f c source format tileSize overlap
             = Panic UnsupportedFormat
             <-> format <> "" /\ format <> "jpg" /\ format <> "png").
  { intros f c format. unfold New, loadImage.
    destruct (String.eqb_spec format "") as [-> | N0]; cbn [orb].
    { split; [| tauto]. intros H. exfalso. revert H.
      destruct (gg_Load JPEG source) as [img | err]; cbn;
        [destruct (Bounds img) |]; discriminate. }
    destruct (String.eqb_spec format "jpg") as [-> | N1].
    { split; [| tauto]. intros H. exfalso. revert H.
      destruct (gg_Load JPEG source) as [img | err]; cbn;
        [destruct (Bounds img) |]; discriminate. }
    destruct (String.eqb_spec format "png") as [-> | N2].
    { split; [| tauto]. intros H. exfalso. revert H.
      destruct (gg_Load PNG source) as [img | err]; cbn;
        [destruct (Bounds img) |]; discriminate. }
    split; [intros _; repeat split; assumption | reflexivity]. }
  split; [reflexivity |]. split; [reflexivity |].
  split; [| split].
  - intros H. apply Iff in H. tauto.
  - apply Iff.
  - intros format fuel destination N0 N1 N2. unfold run.
    rewrite (proj2 (Iff "" false format) (conj N0 (conj N1 N2))).
    reflexivity.
Qed.

(** * The raster of a level *)

Lemma on_dzid_Ok {L : Libraries} {A} (m : M A) (ic : ImageCreator) a d' :
  m (dzid ic) = Ok (a, d') -> on_dzid m ic = Ok (a, set_dzid d' ic).
Proof. unfold on_dzid. intros ->. reflexivity. Qed.

Lemma fill_idem {L : Libraries} (ic : ImageCreator) : fill (fill ic) = fill ic.
Proof. reflexivity. Qed.

Lemma to_uint_small z : 0 <= z < 2 ^ 64 -> GoInt.to_uint z = z.
Proof. intros Hz. unfold GoInt.to_uint. apply Z.mod_small. exact Hz. Qed.

Lemma resolved_filter name :
  exists alg, lookup RESIZE_FILTERS (obtainFilter name) = Some alg.
Proof.
  unfold obtainFilter.
  rewrite (obtainFilter_in_order _ name (Permutation_refl _)). cbn.
  destruct (String.eqb_spec name "bilinear") as [-> | N1];
    [eexists; reflexivity |].
  destruct (String.eqb_spec name "bicubic") as [-> | N2];
    [eexists; reflexivity |].
  destruct (String.eqb_spec name "nearest") as [-> | N3];
    [eexists; reflexivity |].
  destruct (String.eqb_spec name "lanczos") as [-> | N4];
    [eexists; reflexivity |].
  eexists. reflexivity.
Qed.

Lemma getImage_run {L : Libraries} (ic : ImageCreator) level :
  well_formed (dzid ic) -> valid_level (dzid ic) level ->
  getImage level ic =
  Ok (if (Width (dzid ic) =? level_width (dzid ic) level)
         && (Height (dzid ic) =? level_height (dzid ic) level)
      then Image ic
      else resize_Thumbnail
             (level_width (dzid ic) level) (level_height (dzid ic) level)
             (Image ic)
             (lookup RESIZE_FILTERS (obtainFilter (ResizeFilter ic))),
      fill ic).
Proof.
  intros WF V. pose proof (well_formed_filled _ WF) as WF'.
  assert (V' : valid_level (filled (dzid ic)) level) by exact V.
  pose proof (level_width_bounds _ level (proj1 WF) V) as BW.
  pose proof (level_height_bounds _ level (proj1 WF) V) as BH.
  destruct (proj1 WF) as [HW HH _ _]. unfold bound in *.
  unfold getImage.
  rewrite (bind_Ok _ _ _ _ _
             (on_dzid_Ok (pyramidLevelCheck level) ic _ _
                         (pyramidLevelCheck_valid _ level WF V))).
  change (set_dzid (filled (dzid ic)) ic) with (fill ic).
  rewrite (bind_Ok _ _ _ _ _
             (on_dzid_Ok (getDimensions level) (fill ic) _ _
                         (getDimensions_run _ level WF' V'))).
  rewrite filled_idem. change (set_dzid (filled (dzid ic)) (fill ic))
    with (fill ic).
  cbn [dzid set_dzid Image ResizeFilter fill].
  change (Width (filled (dzid ic))) with (Width (dzid ic)).
  change (Height (filled (dzid ic))) with (Height (dzid ic)).
  change (level_width (filled (dzid ic)) level)
    with (level_width (dzid ic) level).
  change (level_height (filled (dzid ic)) level)
    with (level_height (dzid ic) level).
  rewrite !to_uint_small by lia.
  destruct ((Width (dzid ic) =? level_width (dzid ic) level)
            && (Height (dzid ic) =? level_height (dzid ic) level));
    reflexivity.
Qed.

Lemma cdiv_shrinks a b : 2 <= a -> 2 <= b -> cdiv a b < a.
Proof.
  intros Ha Hb. pose proof (cdiv_spec a b ltac:(lia)) as S. nia.
Qed.

(** The level has the source's size exactly at the top of the pyramid. *)
Lemma source_size_iff_top d level :
  in_range d -> valid_level d level ->
  (Width d =? level_width d level) && (Height d =? level_height d level)
  = true
  <-> level = levels d - 1.
Proof.
  intros R V. destruct (R) as [HW HH _ _].
  pose proof (level_width_bounds d level R V) as BW.
  pose proof (level_height_bounds d level R V) as BH.
  unfold valid_level in V.
  rewrite andb_true_iff, !Z.eqb_eq. split.
  - intros [EW EH].
    destruct (Z.eq_dec level (levels d - 1)) as [E | N]; [exact E | exfalso].
    assert (K : 2 <= 2 ^ (levels d - 1 - level)).
    { change 2 with (2 ^ 1) at 1. apply Z.pow_le_mono_r; lia. }
    assert (Big : 2 <= Z.max (Height d) (Width d)).
    { destruct (Z.le_gt_cases (Z.max (Height d) (Width d)) 1) as [Le | Gt];
        [| lia].
      apply Z.log2_up_null in Le. unfold levels, maxDimension in V, N. lia. }
    unfold level_width in EW. unfold level_height in EH.
    destruct (Z.le_gt_cases 2 (Width d)) as [W2 | W1].
    + pose proof (cdiv_shrinks _ _ W2 K). lia.
    + assert (H2 : 2 <= Height d) by lia.
      pose proof (cdiv_shrinks _ _ H2 K). lia.
  - intros ->. unfold level_width, level_height.
    replace (levels d - 1 - (levels d - 1)) with 0 by lia.
    change (2 ^ 0) with 1. rewrite !cdiv_1_r. split; reflexivity.
Qed.

(** C6.  The code departs from the claim.  [getImage] hands the level's
    dimensions to [resize.Thumbnail], which fits the source into that box
    keeping its proportions and rounding the other side down: for a 5 x 3
    source, tile size 256, [getDimensions(2)] is (3, 2), but the raster
    that [getImage(2)] returns measures 3 x 1. *)
Lemma C6_level_raster_misses_dimensions :
  eval (getDimensions 2) (dzid Nfnt.small_creator) = Ok (3, 2) /\
  exists img,
    eval (getImage 2) Nfnt.small_creator = Ok img /\
    @Bounds Nfnt.SizeOnly img = (3, 1).
Proof.
  split; [reflexivity |]. eexists. split; reflexivity.
Qed.

(** The two branches of [getImage] on a valid level: the source raster
    itself when the level's dimensions equal the source's, which is the
    case exactly at the top level; otherwise the call of
    [resize.Thumbnail] on the source raster with [getDimensions(level)]
    and the filter that the registry resolves the configured name to. *)
Lemma getImage_top_or_thumbnail {L : Libraries} (ic : ImageCreator)
  n level lw lh :
  well_formed (dzid ic) ->
  eval NumLevels (dzid ic) = Ok n -> 0 <= level < n ->
  eval (getDimensions level) (dzid ic) = Ok (lw, lh) ->
  exists alg,
    lookup RESIZE_FILTERS (obtainFilter (ResizeFilter ic)) = Some alg /\
    ((Width (dzid ic), Height (dzid ic)) = (lw, lh) <-> level = n - 1) /\
    (level = n - 1 -> eval (getImage level) ic = Ok (Image ic)) /\
    (level <> n - 1 ->
     eval (getImage level) ic
     = Ok (resize_Thumbnail lw lh (Image ic) (Some alg))).
Proof.
  intros WF En V ED.
  rewrite eval_NumLevels in En by exact WF. injection En as <-.
  rewrite (eval_Ok _ _ _ _ (getDimensions_run _ level WF V)) in ED.
  injection ED as <- <-.
  destruct (resolved_filter (ResizeFilter ic)) as [alg Halg].
  pose proof (source_size_iff_top _ level (proj1 WF) V) as Top.
  pose proof (eval_Ok _ _ _ _ (getImage_run ic level WF V)) as Run.
  exists alg. split; [exact Halg |]. split; [| split].
  - rewrite <- Top, andb_true_iff, !Z.eqb_eq. split.
    + intros E. injection E as -> ->. split; reflexivity.
    + intros [E1 E2]. rewrite <- E1, <- E2. reflexivity.
  - intros E. apply Top in E. rewrite E in Run. exact Run.
  - intros N. rewrite Run, Halg.
    destruct ((Width (dzid ic) =? level_width (dzid ic) level)
              && (Height (dzid ic) =? level_height (dzid ic) level)) eqn:B;
      [| reflexivity].
    exfalso. apply N. apply Top. reflexivity.
Qed.

(** * The emission loop *)

Lemma In_zrange j n i : In j (zrange i n) <-> i <= j < i + Z.of_nat n.
Proof.
  revert i. induction n as [| n IH]; intros i; cbn [zrange In].
  - lia.
  - rewrite IH. lia.
Qed.

Lemma calls_succeed_app {L : Libraries} a b :
  calls_succeed (a ++ b) = calls_succeed a && calls_succeed b.
Proof. apply forallb_app. Qed.

Lemma calls_succeed_In {L : Libraries} l e :
  calls_succeed l = true -> In e l -> event_error e = None.
Proof.
  unfold calls_succeed. intros H Hin. rewrite forallb_forall in H.
  specialize (H e Hin). destruct (event_error e); [discriminate | reflexivity].
Qed.

Lemma calls_succeed_cons {L : Libraries} e l :
  event_error e = None -> calls_succeed (e :: l) = calls_succeed l.
Proof. intros H. unfold calls_succeed. cbn. rewrite H. reflexivity. Qed.

Lemma calls_succeed_one {L : Libraries} e :
  event_error e = None -> calls_succeed [e] = true.
Proof. intros H. unfold calls_succeed. cbn. rewrite H. reflexivity. Qed.

Lemma event_error_library {L : Libraries} e msg :
  event_error e = Some msg -> library_error msg.
Proof.
  unfold library_error. destruct e as [p | p enc tile quality | p d]; cbn.
  - destruct (os_NotExist p); [| discriminate].
    intros H. left. exists p. exact H.
  - destruct (os_Create p) as [m |] eqn:C.
    + intros H. injection H as <-. right. left. exists p. exact C.
    + intros H. right. right. left. exists p, tile, quality. exact H.
  - destruct (os_Create p) as [m |] eqn:C.
    + intros H. injection H as <-. right. left. exists p. exact C.
    + intros H. right. right. right. exists p, d. exact H.
Qed.

(** A counted loop whose body leaves the state alone. *)
Lemma emits_count_loop {L : Libraries} {S}
  (body : Z -> ST S (list event)) (f : Z -> list event) (s : S) n i :
  0 <= i -> i + Z.of_nat n <= bound ->
  (forall j, i <= j < i + Z.of_nat n -> emits (body j) s s (f j)) ->
  emits (count_loop n i body) s s (flat_map f (zrange i n)).
Proof.
  revert i. induction n as [| n IH]; intros i Hi Hn Hbody.
  - left. split; reflexivity.
  - cbn [count_loop zrange flat_map].
    assert (Enext : GoInt.add i 1 = i + 1).
    { apply wrap_small. unfold GoInt.min_int, GoInt.max_int, bound in *. lia. }
    unfold emits.
    destruct (Hbody i ltac:(lia)) as [[Hs Hok] | (e & msg & Hin & He & Hp)].
    + rewrite (bind_Ok _ _ _ _ _ Hok). rewrite Enext.
      destruct (IH (i + 1) ltac:(lia) ltac:(lia)
                   ltac:(intros j Hj; apply Hbody; lia))
        as [[Hs' Hok'] | (e & msg & Hin & He & Hp)].
      * left. rewrite calls_succeed_app, Hs, Hs'.
        rewrite (bind_Ok _ _ _ _ _ Hok'). split; reflexivity.
      * right. exists e, msg. split; [apply in_or_app; right; exact Hin |].
        split; [exact He |]. apply bind_Panic. exact Hp.
    + right. exists e, msg. split; [apply in_or_app; left; exact Hin |].
      split; [exact He |]. apply bind_Panic. exact Hp.
Qed.

Lemma emits_for_range {L : Libraries} {S}
  (body : Z -> ST S (list event)) (f : Z -> list event) (s : S) n :
  0 <= n <= bound ->
  (forall j, 0 <= j < n -> emits (body j) s s (f j)) ->
  emits (for_range n body) s s (flat_map f (zrange 0 (Z.to_nat n))).
Proof.
  intros Hn Hbody. unfold for_range. apply emits_count_loop.
  - lia.
  - rewrite Z2Nat.id; lia.
  - intros j Hj. apply Hbody. rewrite Z2Nat.id in Hj; lia.
Qed.

Lemma getOrCreatePath_cases {L : Libraries} {S} p (s : S) :
  (event_error (EnsureDir p) = None /\ getOrCreatePath p s = Ok (p, s)) \/
  (exists msg,
      event_error (EnsureDir p) = Some msg /\
      getOrCreatePath p s = Panic (External msg)).
Proof.
  unfold getOrCreatePath, event_error, check_error, bind, ret, panic.
  destruct (os_NotExist p); [| left; split; reflexivity].
  destruct (os_MkdirAll p) as [msg |].
  - right. exists msg. split; reflexivity.
  - left. split; reflexivity.
Qed.

Lemma save_cases {L : Libraries} p d :
  (event_error (SaveDescriptor p d) = None /\
   save p d = Ok (SaveDescriptor p d, d)) \/
  (exists msg,
      event_error (SaveDescriptor p d) = Some msg /\
      save p d = Panic (External msg)).
Proof.
  unfold save, event_error, check_error, bind, ret, panic.
  destruct (os_Create p) as [msg |].
  - right. exists msg. split; reflexivity.
  - destruct (template_Execute p d) as [msg |].
    + right. exists msg. split; reflexivity.
    + left. split; reflexivity.
Qed.

Lemma columns_bounds d level :
  in_range d -> valid_level d level -> 0 < columns d level <= bound.
Proof.
  intros R V. pose proof (level_width_bounds d level R V) as B.
  destruct R as [HW _ HT _]. unfold columns. split.
  - apply cdiv_pos; lia.
  - pose proof (cdiv_le (level_width d level) (TileSize d)); lia.
Qed.

Lemma rows_bounds d level :
  in_range d -> valid_level d level -> 0 < rows d level <= bound.
Proof.
  intros R V. pose proof (level_height_bounds d level R V) as B.
  destruct R as [_ HH HT _]. unfold rows. split.
  - apply cdiv_pos; lia.
  - pose proof (cdiv_le (level_height d level) (TileSize d)); lia.
Qed.

Section Emission.

Context {L : Libraries}.
Variable ic : ImageCreator.
Variable destination : string.
Hypothesis WF : well_formed (dzid ic).

Lemma emitTile_emits level column row :
  valid_level (dzid ic) level ->
  0 <= column < columns (dzid ic) level ->
  0 <= row < rows (dzid ic) level ->
  emits (emitTile (path_Join (getFilesPath destination)
                             (GoStrings.Itoa level))
                  (level_raster ic level) level column row)
        (fill ic) (fill ic)
        [tile_event ic destination level column row].
Proof.
  intros V Hc Hr.
  pose proof (well_formed_filled _ WF : well_formed (dzid (fill ic)))
    as WF'.
  unfold emits, emitTile.
  rewrite (bind_Ok _ _ _ _ _
             (on_dzid_Ok (getTileBounds level column row) (fill ic) _ _
                (getTileBounds_run _ level column row WF' V Hc Hr))).
  change (set_dzid (filled (dzid (fill ic))) (fill ic)) with (fill ic).
  cbv beta zeta.
  change (tile_rect (dzid (fill ic)) level column row)
    with (tile_rect (dzid ic) level column row).
  change (Format (dzid (fill ic))) with (Format (dzid ic)).
  change (ImageQuality (fill ic)) with (ImageQuality ic).
  unfold tile_event, tilePath.
  set (p := path_Join (path_Join (getFilesPath destination)
                                 (GoStrings.Itoa level))
                      (tileName column row (Format (dzid ic)))).
  set (tile := imaging_Crop (level_raster ic level)
                            (tile_rect (dzid ic) level column row)).
  set (quality := jpeg_Quality (ImageQuality ic)).
  unfold calls_succeed, event_error, check_error, bind, ret, panic.
  cbn [forallb In].
  destruct (os_Create p) as [msg |] eqn:Cr.
  - right. exists (WriteTile p JPEG tile quality), msg.
    rewrite Cr. repeat split. left. reflexivity.
  - destruct (jpeg_Encode p tile quality) as [msg |] eqn:En.
    + right. exists (WriteTile p JPEG tile quality), msg.
      rewrite Cr, En. repeat split. left. reflexivity.
    + left. split; reflexivity.
Qed.

Lemma emitLevel_emits level s :
  valid_level (dzid ic) level ->
  s = ic \/ s = fill ic ->
  emits (emitLevel (getFilesPath destination) level) s (fill ic)
        (level_events ic destination level).
Proof.
  intros V Hs.
  pose proof (well_formed_filled _ WF : well_formed (dzid (fill ic)))
    as WF'.
  assert (WFs : well_formed (dzid s)) by (destruct Hs; subst s; assumption).
  assert (Vs : valid_level (dzid s) level) by (destruct Hs; subst s; exact V).
  assert (Fs : fill s = fill ic) by (destruct Hs; subst s; reflexivity).
  assert (Rs : level_raster s level = level_raster ic level)
    by (destruct Hs; subst s; reflexivity).
  pose proof (columns_bounds _ level (proj1 WF) V) as BC.
  pose proof (rows_bounds _ level (proj1 WF) V) as BR.
  set (levelDir := path_Join (getFilesPath destination)
                             (GoStrings.Itoa level)).
  unfold emits, emitLevel, level_events. fold levelDir.
  destruct (getOrCreatePath_cases levelDir s)
    as [[Dir Hdir] | (msg & Dir & Hdir)].
  2:{ right. exists (EnsureDir levelDir), msg.
      split; [left; reflexivity |]. split; [exact Dir |].
      apply bind_Panic. exact Hdir. }
  rewrite (bind_Ok _ _ _ _ _ Hdir).
  rewrite (bind_Ok _ _ _ _ _ (getImage_run s level WFs Vs)).
  fold (level_raster s level). rewrite Rs, Fs.
  rewrite (bind_Ok _ _ _ _ _
             (on_dzid_Ok (getNumTiles level) (fill ic) _ _
                (getNumTiles_run _ level WF' V))).
  change (set_dzid (filled (dzid (fill ic))) (fill ic)) with (fill ic).
  change (columns (dzid (fill ic)) level) with (columns (dzid ic) level).
  change (rows (dzid (fill ic)) level) with (rows (dzid ic) level).
  assert (Inner : forall column,
             0 <= column < columns (dzid ic) level ->
             emits (for_range (rows (dzid ic) level)
                      (fun row =>
                         emitTile levelDir (level_raster ic level)
                                  level column row))
                   (fill ic) (fill ic)
                   (flat_map
                      (fun row =>
                         [tile_event ic destination level column row])
                      (zrange 0 (Z.to_nat (rows (dzid ic) level))))).
  { intros column Hc.
    apply (emits_for_range _
             (fun row => [tile_event ic destination level column row]));
      [lia |].
    intros row Hr. apply emitTile_emits; assumption. }
  pose proof (emits_for_range _
                (fun column =>
                   flat_map
                     (fun row =>
                        [tile_event ic destination level column row])
                     (zrange 0 (Z.to_nat (rows (dzid ic) level))))
                (fill ic) (columns (dzid ic) level) ltac:(lia) Inner)
    as [[Hs' Hok] | (e & msg & Hin & He & Hp)].
  - left. rewrite (bind_Ok _ _ _ _ _ Hok). split; [| reflexivity].
    rewrite (calls_succeed_cons _ _ Dir). exact Hs'.
  - right. exists e, msg. split; [right; exact Hin |].
    split; [exact He |]. apply bind_Panic. exact Hp.
Qed.

(** The loop over levels, for any amount of fuel. *)
Lemma level_loop_cases fuel :
  forall level s,
    0 <= level <= levels (dzid ic) ->
    s = ic \/ s = fill ic ->
    let expected :=
      flat_map (level_events ic destination)
               (zrange level (Z.to_nat (levels (dzid ic) - level))) in
    (exists e msg,
        In e expected /\ event_error e = Some msg /\
        level_loop fuel (getFilesPath destination) level s
        = Panic (External msg)) \/
    ((fuel <= Z.to_nat (levels (dzid ic) - level))%nat /\
     exists s',
       level_loop fuel (getFilesPath destination) level s
       = Ok (None, s')) \/
    (calls_succeed expected = true /\
     level_loop fuel (getFilesPath destination) level s
     = Ok (Some expected, fill ic)).
Proof.
  induction fuel as [| fuel IH]; intros level s Hl Hs expected.
  - right. left. split; [lia |]. exists s. reflexivity.
  - pose proof (well_formed_filled _ WF : well_formed (dzid (fill ic)))
      as WF'.
    assert (WFs : well_formed (dzid s))
      by (destruct Hs; subst s; assumption).
    assert (Fs : set_dzid (filled (dzid s)) s = fill ic)
      by (destruct Hs; subst s; reflexivity).
    assert (Ls : levels (dzid s) = levels (dzid ic))
      by (destruct Hs; subst s; reflexivity).
    pose proof (levels_bounds _ (proj1 WF)) as B.
    cbn [level_loop].
    rewrite (bind_Ok _ _ _ _ _
               (on_dzid_Ok NumLevels s _ _ (NumLevels_run _ WFs))).
    rewrite Fs, Ls.
    destruct (Z.ltb_spec level (levels (dzid ic))) as [Lt | Ge].
    + assert (V : valid_level (dzid ic) level)
        by (unfold valid_level; lia).
      assert (Split : expected
                      = level_events ic destination level
                        ++ flat_map (level_events ic destination)
                             (zrange (level + 1)
                                (Z.to_nat (levels (dzid ic) - (level + 1))))).
      { unfold expected.
        replace (Z.to_nat (levels (dzid ic) - level))
          with (Datatypes.S (Z.to_nat (levels (dzid ic) - (level + 1))))
          by lia.
        reflexivity. }
      assert (Enext : GoInt.add level 1 = level + 1).
      { apply wrap_small. unfold GoInt.min_int, GoInt.max_int. lia. }
      destruct (emitLevel_emits level (fill ic) V (or_intror eq_refl))
        as [[Hs1 Hok1] | (e & msg & Hin & He & Hp)].
      2:{ left. exists e, msg. rewrite Split.
          split; [apply in_or_app; left; exact Hin |].
          split; [exact He |]. apply bind_Panic. exact Hp. }
      rewrite (bind_Ok _ _ _ _ _ Hok1). rewrite Enext.
      destruct (IH (level + 1) (fill ic) ltac:(lia) (or_intror eq_refl))
        as [(e & msg & Hin & He & Hp) | [[Hf (s' & Hnone)] | [Hs2 Hok2]]].
      * left. exists e, msg. rewrite Split.
        split; [apply in_or_app; right; exact Hin |].
        split; [exact He |]. apply bind_Panic. exact Hp.
      * right. left. split; [lia |]. exists s'.
        rewrite (bind_Ok _ _ _ _ _ Hnone). reflexivity.
      * right. right. rewrite Split, calls_succeed_app, Hs1, Hs2.
        rewrite (bind_Ok _ _ _ _ _ Hok2). split; reflexivity.
    + right. right. unfold expected.
      replace (Z.to_nat (levels (dzid ic) - level)) with O by lia.
      split; reflexivity.
Qed.

(** [create], for any amount of fuel. *)
Lemma create_cases fuel :
  (exists e msg,
      In e (pyramid_events ic destination) /\ event_error e = Some msg /\
      create fuel destination ic = Panic (External msg)) \/
  ((fuel <= Z.to_nat (levels (dzid ic)))%nat /\
   exists s', create fuel destination ic = Ok (None, s')) \/
  (calls_succeed (pyramid_events ic destination) = true /\
   create fuel destination ic
   = Ok (Some (pyramid_events ic destination), fill ic)).
Proof.
  pose proof (levels_bounds _ (proj1 WF)) as B.
  set (files := getFilesPath destination).
  unfold create, pyramid_events. fold files.
  destruct (getOrCreatePath_cases files ic)
    as [[Dir Hdir] | (msg & Dir & Hdir)].
  2:{ left. exists (EnsureDir files), msg.
      split; [left; reflexivity |]. split; [exact Dir |].
      apply bind_Panic. exact Hdir. }
  rewrite (bind_Ok _ _ _ _ _ Hdir).
  pose proof (level_loop_cases fuel 0 ic ltac:(lia) (or_introl eq_refl))
    as Loop.
  cbv zeta in Loop. rewrite Z.sub_0_r in Loop.
  destruct Loop
    as [(e & msg & Hin & He & Hp) | [[Hf (s' & Hnone)] | [Hs Hok]]].
  - left. exists e, msg.
    split; [right; apply in_or_app; left; exact Hin |].
    split; [exact He |]. apply bind_Panic. exact Hp.
  - right. left. split; [exact Hf |]. exists s'.
    rewrite (bind_Ok _ _ _ _ _ Hnone). reflexivity.
  - rewrite (bind_Ok _ _ _ _ _ Hok).
    destruct (save_cases destination (filled (dzid ic)))
      as [[Sv Hsave] | (msg & Sv & Hsave)].
    + right. right.
      rewrite (bind_Ok _ _ _ _ _
                 (on_dzid_Ok (save destination) (fill ic) _ _ Hsave)).
      split; [| reflexivity].
      rewrite (calls_succeed_cons _ _ Dir), calls_succeed_app, Hs,
        (calls_succeed_one _ Sv).
      reflexivity.
    + left. exists (SaveDescriptor destination (filled (dzid ic))), msg.
      split; [right; apply in_or_app; right; left; reflexivity |].
      split; [exact Sv |]. apply bind_Panic.
      unfold on_dzid. change (dzid (fill ic)) with (filled (dzid ic)).
      rewrite Hsave. reflexivity.
Qed.

(** A run of [create] that returns has written the expected events. *)
Lemma create_returns fuel written ic' :
  create fuel destination ic = Ok (Some written, ic') ->
  written = pyramid_events ic destination /\
  calls_succeed written = true /\ ic' = fill ic.
Proof.
  intros Run.
  destruct (create_cases fuel)
    as [(e & msg & _ & _ & Hp) | [[_ (s' & Hnone)] | [Hs Hok]]].
  - rewrite Hp in Run. discriminate Run.
  - rewrite Hnone in Run. discriminate Run.
  - rewrite Hok in Run. injection Run as <- <-.
    split; [reflexivity |]. split; [exact Hs | reflexivity].
Qed.

(** With the fuel for one more iteration than there are levels,
    [create] returns or panics with the error of a library call. *)
Lemma create_ends fuel :
  (Z.to_nat (levels (dzid ic)) < fuel)%nat ->
  (calls_succeed (pyramid_events ic destination) = true /\
   create fuel destination ic
   = Ok (Some (pyramid_events ic destination), fill ic)) \/
  (exists msg,
      library_error msg /\
      calls_succeed (pyramid_events ic destination) = false /\
      create fuel destination ic = Panic (External msg)).
Proof.
  intros Hf.
  destruct (create_cases fuel)
    as [(e & msg & Hin & He & Hp) | [[Hle _] | Done]].
  - right. exists msg. split; [exact (event_error_library e msg He) |].
    split; [| exact Hp].
    destruct (calls_succeed (pyramid_events ic destination)) eqn:All;
      [| reflexivity].
    rewrite (calls_succeed_In _ e All Hin) in He. discriminate He.
  - lia.
  - left. exact Done.
Qed.

End Emission.

(** * The destination without its extension *)

Lemma ext_scan_is_suffix backwards acc :
  exists stem, rev backwards ++ acc = stem ++ GoStrings.ext_scan backwards acc.
Proof.
  revert acc. induction backwards as [| c more IH]; intros acc.
  - exists acc. cbn. rewrite app_nil_r. reflexivity.
  - cbn [GoStrings.ext_scan rev]. rewrite <- app_assoc. cbn [app].
    destruct (Ascii.eqb c "/").
    + exists (rev more ++ c :: acc). rewrite app_nil_r. reflexivity.
    + destruct (Ascii.eqb c ".").
      * exists (rev more). reflexivity.
      * apply IH.
Qed.

Lemma ext_is_suffix p : exists stem, p = stem ++ GoStrings.ext p.
Proof.
  destruct (ext_scan_is_suffix (rev p) []) as [stem H].
  rewrite rev_involutive, app_nil_r in H. exists stem. exact H.
Qed.

Lemma firstn_stem {A} (stem suffix : list A) :
  firstn (List.length stem) (stem ++ suffix) = stem.
Proof. induction stem as [| a stem IH]; cbn; [destruct suffix |]; congruence. Qed.

Lemma skipn_stem {A} (stem suffix : list A) :
  skipn (List.length stem) (stem ++ suffix) = suffix.
Proof. induction stem as [| a stem IH]; cbn; [reflexivity | exact IH]. Qed.

Lemma trim_suffix_app stem suffix :
  GoStrings.trim_suffix (stem ++ suffix) suffix = stem.
Proof.
  unfold GoStrings.trim_suffix, GoStrings.has_suffix.
  rewrite length_app.
  replace (List.length stem + List.length suffix - List.length suffix)%nat
    with (List.length stem) by lia.
  rewrite skipn_stem, firstn_stem.
  destruct (list_eq_dec ascii_dec suffix suffix) as [_ | N];
    [| contradiction].
  destruct (Nat.leb_spec (List.length suffix)
                         (List.length stem + List.length suffix));
    [reflexivity | lia].
Qed.

Lemma string_of_list_ascii_app a b :
  string_of_list_ascii (a ++ b)
  = (string_of_list_ascii a ++ string_of_list_ascii b)%string.
Proof. induction a as [| c a IH]; cbn; [reflexivity | rewrite IH; reflexivity]. Qed.

(** [getFilesPath] replaces the extension that [path.Ext] finds, if any,
    by the suffix "_files". *)
Lemma getFilesPath_stem destination :
  exists stem,
    destination = (stem ++ GoStrings.Ext destination)%string /\
    getFilesPath destination = (stem ++ "_files")%string.
Proof.
  destruct (ext_is_suffix (list_ascii_of_string destination)) as [stem H].
  exists (string_of_list_ascii stem). split.
  - unfold GoStrings.Ext. rewrite <- string_of_list_ascii_app, <- H.
    symmetry. apply string_of_list_ascii_of_string.
  - unfold getFilesPath, GoStrings.TrimSuffix, GoStrings.Ext.
    rewrite list_ascii_of_string_of_list_ascii.
    rewrite H at 1. rewrite trim_suffix_app. reflexivity.
Qed.

(** * Emission *)





(** * Further properties of the descriptor *)

(** ** The cache does not show *)

Lemma same_fields_filled d : same_fields d (filled d).
Proof. repeat split. Qed.

Lemma check_prefix_filled {A} level (k : unit -> M A) d :
  well_formed d ->
  bind (pyramidLevelCheck level) k (filled d)
  = bind (pyramidLevelCheck level) k d.
Proof.
  intros WF. pose proof (well_formed_filled d WF) as WF'.
  unfold bind. rewrite !pyramidLevelCheck_run by assumption.
  rewrite levels_filled, filled_idem. reflexivity.
Qed.

Lemma settles_from_filled {A} (m : M A) d :
  well_formed d ->
  m (filled d) = m d ->
  (forall a d', m d = Ok (a, d') -> d' = filled d) ->
  settles m d.
Proof.
  intros WF Same Final a d' Run. pose proof (Final a d' Run) as ->.
  split; [apply same_fields_filled |]. split.
  - rewrite eval_NumLevels by exact WF. reflexivity.
  - rewrite Same. exact Run.
Qed.

(** X1.  On a descriptor in range whose cache is empty or correct, each
    of [NumLevels], [getScale], [getDimensions], [getNumTiles] and
    [getTileBounds] settles: a call that returns leaves the exported
    fields as they were and the cache equal to the level count, and the
    same call on the descriptor it left returns the same value without
    changing it further. *)
Theorem X1_methods_settle d level column row :
  well_formed d ->
  settles NumLevels d /\
  settles (getScale level) d /\
  settles (getDimensions level) d /\
  settles (getNumTiles level) d /\
  settles (getTileBounds level column row) d.
Proof.
  intros WF. pose proof (well_formed_filled d WF) as WF'.
  assert (Lvl : forall A (k : unit -> M A) a d',
             bind (pyramidLevelCheck level) k d = Ok (a, d') ->
             valid_level d level).
  { intros A k a d' Run. unfold bind in Run.
    rewrite pyramidLevelCheck_run in Run by exact WF.
    destruct ((level <? 0) || (level >=? levels d)) eqn:E;
      [discriminate Run |].
    apply level_test. exact E. }
  split; [| split; [| split; [| split]]].
  - apply settles_from_filled; [exact WF | |].
    + rewrite !NumLevels_run by assumption. reflexivity.
    + intros a d' Run. rewrite NumLevels_run in Run by exact WF.
      injection Run as _ <-. reflexivity.
  - apply settles_from_filled; [exact WF | |].
    + apply check_prefix_filled. exact WF.
    + intros a d' Run. pose proof (Lvl _ _ _ _ Run) as V.
      rewrite (getScale_run d level WF V) in Run.
      injection Run as _ <-. reflexivity.
  - apply settles_from_filled; [exact WF | |].
    + apply check_prefix_filled. exact WF.
    + intros a d' Run. pose proof (Lvl _ _ _ _ Run) as V.
      rewrite (getDimensions_run d level WF V) in Run.
      injection Run as _ <-. reflexivity.
  - apply settles_from_filled; [exact WF | |].
    + apply check_prefix_filled. exact WF.
    + intros a d' Run. pose proof (Lvl _ _ _ _ Run) as V.
      rewrite (getNumTiles_run d level WF V) in Run.
      injection Run as _ <-. reflexivity.
  - apply settles_from_filled; [exact WF | |].
    + apply check_prefix_filled. exact WF.
    + intros a d' Run. pose proof (Lvl _ _ _ _ Run) as V.
      destruct (getTileBounds_total d level column row WF V) as [b Hb].
      rewrite Hb in Run. injection Run as _ <-. reflexivity.
Qed.

Lemma X1_methods_settle_witness :
  well_formed (newDescriptor 640 480 256 1 "jpg") /\
  exists d',
    getNumTiles 10 (newDescriptor 640 480 256 1 "jpg") = Ok ((3, 2), d') /\
    numLevels d' = 11 /\
    getNumTiles 10 d' = Ok ((3, 2), d').
Proof.
  assert (WF : well_formed (newDescriptor 640 480 256 1 "jpg")).
  { apply well_formed_new; unfold bound; lia. }
  split; [exact WF |].
  destruct (X1_methods_settle _ 10 0 0 WF) as (_ & _ & _ & S & _).
  eexists. split; [reflexivity |].
  destruct (S _ _ eq_refl) as (_ & _ & Again).
  split; [reflexivity | exact Again].
Defined.

(** ** The shape of the pyramid *)





Lemma cdiv_twice a b :
  0 < b -> 2 * cdiv a (2 * b) - 1 <= cdiv a b <= 2 * cdiv a (2 * b).
Proof.
  intros Hb.
  pose proof (cdiv_spec a b Hb) as S1.
  pose proof (cdiv_spec a (2 * b) ltac:(lia)) as S2.
  nia.
Qed.

(** X3.  Going down one level halves both dimensions, rounding up: with
    (w', h') the dimensions of level + 1 and (w, h) those of level, w is
    the ceiling of w' / 2 and h the ceiling of h' / 2.  So the dimensions
    never grow on the way down, never drop below 1, and never exceed the
    source's. *)
Theorem X3_each_level_halves_the_next d n level w h w' h' :
  well_formed d ->
  eval NumLevels d = Ok n -> 0 <= level -> level + 1 < n ->
  eval (getDimensions level) d = Ok (w, h) ->
  eval (getDimensions (level + 1)) d = Ok (w', h') ->
  (2 * w - 1 <= w' <= 2 * w) /\ (2 * h - 1 <= h' <= 2 * h) /\
  (1 <= w <= w' /\ w' <= Width d) /\ (1 <= h <= h' /\ h' <= Height d).
Proof.
  intros WF En L0 L1 E E'. pose proof WF as [R _].
  rewrite eval_NumLevels in En by exact WF. injection En as <-.
  assert (V : valid_level d level) by (unfold valid_level; lia).
  assert (V' : valid_level d (level + 1)) by (unfold valid_level; lia).
  rewrite (eval_Ok _ _ _ _ (getDimensions_run d _ WF V)) in E.
  rewrite (eval_Ok _ _ _ _ (getDimensions_run d _ WF V')) in E'.
  injection E as <- <-. injection E' as <- <-.
  pose proof (level_width_bounds d _ R V) as BW.
  pose proof (level_height_bounds d _ R V) as BH.
  pose proof (level_width_bounds d _ R V') as BW'.
  pose proof (level_height_bounds d _ R V') as BH'.
  unfold level_width, level_height in *.
  replace (levels d - 1 - level) with (Z.succ (levels d - 1 - (level + 1)))
    in * by lia.
  rewrite Z.pow_succ_r in * by lia.
  set (p := 2 ^ (levels d - 1 - (level + 1))) in *.
  assert (Hp : 0 < p) by (apply Z.pow_pos_nonneg; lia).
  pose proof (cdiv_twice (Width d) p Hp).
  pose proof (cdiv_twice (Height d) p Hp).
  lia.
Qed.

Lemma X3_each_level_halves_the_next_witness :
  well_formed (newDescriptor 641 480 256 0 "jpg") /\
  (2 * 161 - 1 <= 321 <= 2 * 161) /\ (2 * 120 - 1 <= 240 <= 2 * 120) /\
  (1 <= 161 <= 321 /\ 321 <= 641) /\ (1 <= 120 <= 240 /\ 240 <= 480).
Proof.
  assert (WF : well_formed (newDescriptor 641 480 256 0 "jpg")).
  { apply well_formed_new; unfold bound; lia. }
  split; [exact WF |].
  apply (X3_each_level_halves_the_next _ 11 8 161 120 321 240 WF);
    reflexivity || lia.
Defined.



(** ** Tile rectangles at and beyond the grid *)

(** One axis of [getTileBounds] for any coordinate whose grid line
    [c * TileSize] lies below 2^52 in magnitude: nothing wraps there
    either, and every integer converted to float64 stays below 2^53,
    where the conversion is exact. *)
Lemma axis_exact_wide d extent c :
  in_range d -> 0 < extent < bound ->
  - 2 ^ 52 < c * TileSize d < 2 ^ 52 ->
  let offset := if c =? 0 then 0 else Overlap d in
  let factor := if c =? 0 then 1 else 2 in
  let x := GoInt.sub (GoInt.mul c (TileSize d)) offset in
  let w := GoInt.add (TileSize d) (GoInt.mul factor (Overlap d)) in
  let w' := GoMath.to_int
              (GoMath.Min (GoMath.of_int w)
                          (GoMath.of_int (GoInt.sub extent x))) in
  x = tile_min d c /\ GoInt.add x w' = tile_min d c + tile_len d extent c.
Proof.
  intros [_ _ HT HO] HE H0. unfold bound in *.
  cbv zeta. unfold tile_len, tile_min, lead.
  set (offset := if c =? 0 then 0 else Overlap d).
  set (factor := if c =? 0 then 1 else 2).
  assert (Hoff : 0 <= offset < 2 ^ 31) by (subst offset; destruct (c =? 0); lia).
  assert (Hfac : 1 <= factor <= 2) by (subst factor; destruct (c =? 0); lia).
  assert (Hfo : 0 <= factor * Overlap d < 2 ^ 32) by nia.
  unfold GoInt.sub, GoInt.mul, GoInt.add.
  rewrite (wrap_small (c * TileSize d))
    by (unfold GoInt.min_int, GoInt.max_int; lia).
  rewrite (wrap_small (c * TileSize d - offset))
    by (unfold GoInt.min_int, GoInt.max_int; lia).
  rewrite (wrap_small (factor * Overlap d))
    by (unfold GoInt.min_int, GoInt.max_int; lia).
  rewrite (wrap_small (TileSize d + factor * Overlap d))
    by (unfold GoInt.min_int, GoInt.max_int; lia).
  rewrite (wrap_small (extent - (c * TileSize d - offset)))
    by (unfold GoInt.min_int, GoInt.max_int; lia).
  rewrite Min_of_int, to_int_of_int.
  split; [reflexivity |].
  apply wrap_small. unfold GoInt.min_int, GoInt.max_int. lia.
Qed.

Lemma getTileBounds_run_wide d level column row :
  well_formed d -> valid_level d level ->
  - 2 ^ 52 < column * TileSize d < 2 ^ 52 ->
  - 2 ^ 52 < row * TileSize d < 2 ^ 52 ->
  getTileBounds level column row d =
  Ok (tile_rect d level column row, filled d).
Proof.
  intros WF V Hc Hr. pose proof (well_formed_filled d WF) as WF'.
  assert (V' : valid_level (filled d) level) by exact V.
  destruct WF as [R C].
  pose proof (level_width_bounds d level R V) as BW.
  pose proof (level_height_bounds d level R V) as BH.
  assert (EW : 0 < level_width d level < bound) by (destruct R; lia).
  assert (EH : 0 < level_height d level < bound) by (destruct R; lia).
  destruct (axis_exact_wide d _ column R EW Hc) as [Ex Ew].
  destruct (axis_exact_wide d _ row R EH Hr) as [Ey Eh].
  unfold getTileBounds.
  rewrite (bind_Ok _ _ _ _ _ (pyramidLevelCheck_valid d level (conj R C) V)).
  cbv beta zeta.
  rewrite (bind_Ok _ _ _ _ _ (getDimensions_run _ level WF' V')).
  rewrite filled_idem.
  change (Overlap (filled d)) with (Overlap d).
  change (TileSize (filled d)) with (TileSize d).
  change (level_width (filled d) level) with (level_width d level).
  change (level_height (filled d) level) with (level_height d level).
  rewrite Ew, Eh, Ex, Ey. reflexivity.
Qed.

(** The far end and the length of a rectangle on one axis, for a
    coordinate at or past the count. *)
Lemma axis_past_count d extent c :
  0 < TileSize d -> 0 <= Overlap d -> 0 < extent ->
  cdiv extent (TileSize d) <= c ->
  tile_min d c + tile_len d extent c = extent /\
  tile_len d extent c <= Overlap d.
Proof.
  intros HT HO HE Hc.
  pose proof (cdiv_spec extent (TileSize d) HT) as S.
  pose proof (cdiv_pos extent (TileSize d) HT HE) as P.
  assert (Far : extent <= c * TileSize d) by nia.
  unfold tile_len, tile_min, lead.
  destruct (Z.eqb_spec c 0) as [E0 | E0]; [lia |]. lia.
Qed.

(** X5.  [getTileBounds] accepts a column at or past the column count
    as long as [column * TileSize] stays below 2^52, where every integer
    the function converts to float64 is converted exactly: the rectangle
    it returns then ends exactly at the level's right edge and is at most
    [overlap] wide, so with overlap 0 it holds no pixel.  Likewise for a
    row at or past the row count. *)
Theorem X5_tiles_past_the_count d n level lw lh cols rws column row :
  well_formed d ->
  eval NumLevels d = Ok n -> 0 <= level < n ->
  eval (getDimensions level) d = Ok (lw, lh) ->
  eval (getNumTiles level) d = Ok (cols, rws) ->
  0 <= column -> column * TileSize d < 2 ^ 52 ->
  0 <= row -> row * TileSize d < 2 ^ 52 ->
  exists b,
    eval (getTileBounds level column row) d = Ok b /\
    (cols <= column -> X (Max b) = lw /\ Dx b <= Overlap d) /\
    (rws <= row -> Y (Max b) = lh /\ Dy b <= Overlap d).
Proof.
  intros WF En V ED EN Hc Hct Hr Hrt.
  destruct (level_reports d n level lw lh cols rws WF En V ED EN)
    as (V' & Elw & Elh & Ec & Er).
  pose proof WF as [R _]. destruct (R) as [_ _ HT HO].
  pose proof (level_width_bounds d level R V') as BW.
  pose proof (level_height_bounds d level R V') as BH.
  exists (tile_rect d level column row). split; [| split].
  - apply (eval_Ok _ _ _ (filled d)).
    apply getTileBounds_run_wide; try assumption; nia.
  - intros Past. subst cols lw.
    destruct (axis_past_count d _ column (proj1 HT) (proj1 HO) (proj1 BW) Past)
      as [Far Len].
    unfold tile_rect, Dx. cbn [X Min Max]. lia.
  - intros Past. subst rws lh.
    destruct (axis_past_count d _ row (proj1 HT) (proj1 HO) (proj1 BH) Past)
      as [Far Len].
    unfold tile_rect, Dy. cbn [Y Min Max]. lia.
Qed.

Lemma X5_tiles_past_the_count_witness :
  well_formed (newDescriptor 512 384 256 0 "jpg") /\
  exists b,
    eval (getTileBounds 9 2 0) (newDescriptor 512 384 256 0 "jpg") = Ok b /\
    (2 <= 2 -> X (Max b) = 512 /\ Dx b <= 0).
Proof.
  assert (WF : well_formed (newDescriptor 512 384 256 0 "jpg")).
  { apply well_formed_new; unfold bound; lia. }
  split; [exact WF |].
  destruct (X5_tiles_past_the_count _ 10 9 512 384 2 2 2 0 WF eq_refl
              ltac:(lia) eq_refl eq_refl
              ltac:(lia) ltac:(cbn; lia) ltac:(lia) ltac:(cbn; lia))
    as (b & Hb & Hcol & _).
  exists b. split; [exact Hb | exact Hcol].
Defined.





(** * Further properties of the registry and the constructors *)

(** X8.  Whatever the order in which the registry is ranged over,
    [obtainFilter] returns a registered key, returns a registered name
    unchanged, and is idempotent: resolving its own result again changes
    nothing. *)
Theorem X8_obtainFilter_lands_in_the_registry order order' name :
  Permutation order (map fst RESIZE_FILTERS) ->
  Permutation order' (map fst RESIZE_FILTERS) ->
  In (obtainFilter_in order name) (map fst RESIZE_FILTERS) /\
  (In name (map fst RESIZE_FILTERS) -> obtainFilter_in order name = name) /\
  obtainFilter_in order' (obtainFilter_in order name)
  = obtainFilter_in order name.
Proof.
  intros P P'.
  assert (Known : forall k,
             In k (map fst RESIZE_FILTERS) ->
             forall o, Permutation o (map fst RESIZE_FILTERS) ->
                       obtainFilter_in o k = k).
  { intros k Hk o Po. rewrite (obtainFilter_in_order o k Po).
    cbn in Hk. destruct Hk as [<- | [<- | [<- | [<- | []]]]]; reflexivity. }
  assert (Lands : In (obtainFilter_in order name) (map fst RESIZE_FILTERS)).
  { rewrite (obtainFilter_in_order order name P).
    destruct (existsb (String.eqb name) (map fst RESIZE_FILTERS)) eqn:E.
    - apply existsb_exists in E. destruct E as (k & Hk & Ek).
      apply String.eqb_eq in Ek. subst k. exact Hk.
    - cbn. tauto. }
  split; [exact Lands |]. split.
  - intros Hk. apply Known; assumption.
  - apply Known; assumption.
Qed.

Lemma X8_obtainFilter_lands_in_the_registry_witness :
  Permutation ["lanczos"; "nearest"; "bicubic"; "bilinear"]
              (map fst RESIZE_FILTERS) /\
  In (obtainFilter_in ["lanczos"; "nearest"; "bicubic"; "bilinear"] "cubic")
     (map fst RESIZE_FILTERS) /\
  obtainFilter_in (map fst RESIZE_FILTERS)
    (obtainFilter_in ["lanczos"; "nearest"; "bicubic"; "bilinear"] "cubic")
  = obtainFilter_in ["lanczos"; "nearest"; "bicubic"; "bilinear"] "cubic".
Proof.
  assert (P : Permutation ["lanczos"; "nearest"; "bicubic"; "bilinear"]
                          (map fst RESIZE_FILTERS)).
  { apply Permutation_sym. apply (Permutation_rev (map fst RESIZE_FILTERS)). }
  split; [exact P |].
  destruct (X8_obtainFilter_lands_in_the_registry _ _ "cubic" P
              (Permutation_refl _)) as (Lands & _ & Idem).
  split; [exact Lands | exact Idem].
Defined.

(** X9.  [DeepZoomImageDescriptor.New] replaces the tile size, the
    overlap and the format and nothing else.  The level count and the
    scale and dimensions of every level are the same before and after,
    also for an invalid level, and a cache filled before the call is
    still correct after it. *)
Theorem X9_retiling_keeps_the_levels d tileSize overlap format level :
  well_formed d ->
  0 < tileSize < bound -> 0 <= overlap < bound ->
  exists d',
    Descriptor.New tileSize overlap format d = Ok (d', d') /\
    (TileSize d' = tileSize /\ Overlap d' = overlap /\ Format d' = format /\
     Width d' = Width d /\ Height d' = Height d) /\
    well_formed d' /\
    eval NumLevels d' = eval NumLevels d /\
    eval (getScale level) d' = eval (getScale level) d /\
    eval (getDimensions level) d' = eval (getDimensions level) d.
Proof.
  intros WF HT HO. destruct WF as [R C]. destruct (R) as [HW HH _ _].
  set (d' := mkDzid format overlap tileSize (Height d) (Width d)
                    (numLevels d)).
  assert (WF' : well_formed d').
  { split; [constructor; assumption | exact C]. }
  exists d'. split; [reflexivity |]. split; [repeat split |].
  split; [exact WF' |].
  assert (WF0 : well_formed d) by (split; assumption).
  split; [| split].
  - rewrite !eval_NumLevels by assumption. reflexivity.
  - destruct (Z_lt_dec level 0) as [Neg | Pos];
      [| destruct (Z_lt_dec level (levels d)) as [In | Out]].
    + rewrite !(eval_Panic (getScale level) _ InvalidLevel); [reflexivity | |];
        apply bind_Panic; apply pyramidLevelCheck_invalid;
        try assumption; unfold valid_level; lia.
    + assert (V : valid_level d level) by (unfold valid_level; lia).
      rewrite (eval_Ok _ _ _ _ (getScale_run d level WF0 V)).
      rewrite (eval_Ok _ _ _ _ (getScale_run d' level WF' V)).
      reflexivity.
    + rewrite !(eval_Panic (getScale level) _ InvalidLevel); [reflexivity | |];
        apply bind_Panic; apply pyramidLevelCheck_invalid;
        try assumption; unfold valid_level;
        change (levels d') with (levels d); lia.
  - destruct (Z_lt_dec level 0) as [Neg | Pos];
      [| destruct (Z_lt_dec level (levels d)) as [In | Out]].
    + rewrite !(eval_Panic (getDimensions level) _ InvalidLevel);
        [reflexivity | |];
        apply bind_Panic; apply pyramidLevelCheck_invalid;
        try assumption; unfold valid_level; lia.
    + assert (V : valid_level d level) by (unfold valid_level; lia).
      rewrite (eval_Ok _ _ _ _ (getDimensions_run d level WF0 V)).
      rewrite (eval_Ok _ _ _ _ (getDimensions_run d' level WF' V)).
      reflexivity.
    + rewrite !(eval_Panic (getDimensions level) _ InvalidLevel);
        [reflexivity | |];
        apply bind_Panic; apply pyramidLevelCheck_invalid;
        try assumption; unfold valid_level;
        change (levels d') with (levels d); lia.
Qed.

Lemma X9_retiling_keeps_the_levels_witness :
  well_formed (filled (newDescriptor 641 480 256 0 "jpg")) /\
  exists d',
    Descriptor.New 512 1 "png" (filled (newDescriptor 641 480 256 0 "jpg"))
    = Ok (d', d') /\
    eval NumLevels d' = Ok 11 /\
    eval (getDimensions 9) d' = Ok (321, 240).
Proof.
  assert (WF : well_formed (filled (newDescriptor 641 480 256 0 "jpg"))).
  { apply well_formed_filled. apply well_formed_new; unfold bound; lia. }
  split; [exact WF |].
  destruct (X9_retiling_keeps_the_levels _ 512 1 "png" 9 WF
              ltac:(unfold bound; lia) ltac:(unfold bound; lia))
    as (d' & Run & _ & _ & EN & _ & ED).
  exists d'. split; [exact Run |]. split.
  - rewrite EN. reflexivity.
  - rewrite ED. reflexivity.
Defined.

(** X10.  [ImageCreator.New] returns a creator only when the format is
    "", "jpg" or "png" and the matching decoder returns an image; the
    creator then holds that image, a descriptor with the image's width
    and height, the given tile size, overlap and format and an empty
    cache, and the receiver's quality, filter and metadata flag.  It
    panics either with the unsupported-format error, for any other
    format, or with exactly the error the decoder returned. *)
Theorem X10_New_outcomes {L : Libraries}
  (quality : Q) (filter : string) (copy : bool)
  (source format : string) (tileSize overlap : Z) :
  (forall ic,
      New quality filter copy source format tileSize overlap = Ok ic ->
      exists c,
        ((format = "" \/ format = "jpg") /\ c = JPEG \/
         format = "png" /\ c = PNG) /\
        gg_Load c source = inl (Image ic) /\
        Bounds (Image ic) = (Width (dzid ic), Height (dzid ic)) /\
        dzid ic = newDescriptor (Width (dzid ic)) (Height (dzid ic))
                                tileSize overlap format /\
        ImageQuality ic = quality /\ ResizeFilter ic = filter /\
        CopyMetadata ic = copy) /\
  (forall e,
      New quality filter copy source format tileSize overlap = Panic e ->
      (e = UnsupportedFormat /\
       format <> "" /\ format <> "jpg" /\ format <> "png") \/
      (exists c msg,
          ((format = "" \/ format = "jpg") /\ c = JPEG \/
           format = "png" /\ c = PNG) /\
          gg_Load c source = inr msg /\ e = External msg)).
Proof.
  assert (Decoded : forall c,
             ((format = "" \/ format = "jpg") /\ c = JPEG \/
              format = "png" /\ c = PNG) ->
             loadImage source format = Ok (gg_Load c source) ->
             (forall ic,
                 New quality filter copy source format tileSize overlap
                 = Ok ic ->
                 gg_Load c source = inl (Image ic) /\
                 Bounds (Image ic) = (Width (dzid ic), Height (dzid ic)) /\
                 dzid ic = newDescriptor (Width (dzid ic)) (Height (dzid ic))
                                         tileSize overlap format /\
                 ImageQuality ic = quality /\ ResizeFilter ic = filter /\
                 CopyMetadata ic = copy) /\
             (forall e,
                 New quality filter copy source format tileSize overlap
                 = Panic e ->
                 exists msg, gg_Load c source = inr msg /\ e = External msg)).
  { intros c _ Load. unfold New. rewrite Load.
    destruct (gg_Load c source) as [img | msg]; cbn [check].
    - destruct (Bounds img) as [w h] eqn:B. split.
      + intros ic E. injection E as <-. cbn. rewrite B. repeat split.
      + intros e E. discriminate E.
    - split.
      + intros ic E. discriminate E.
      + intros e E. injection E as <-. exists msg. split; reflexivity. }
  assert (Which :
            (exists c,
                ((format = "" \/ format = "jpg") /\ c = JPEG \/
                 format = "png" /\ c = PNG) /\
                loadImage source format = Ok (gg_Load c source)) \/
            (loadImage source format = Panic UnsupportedFormat /\
             format <> "" /\ format <> "jpg" /\ format <> "png")).
  { unfold loadImage.
    destruct (String.eqb_spec format "") as [-> | N0]; cbn [orb].
    { left. exists JPEG. split; [tauto | reflexivity]. }
    destruct (String.eqb_spec format "jpg") as [-> | N1].
    { left. exists JPEG. split; [tauto | reflexivity]. }
    destruct (String.eqb_spec format "png") as [-> | N2].
    { left. exists PNG. split; [tauto | reflexivity]. }
    right. repeat split; assumption. }
  destruct Which as [(c & Hc & Load) | (Load & N0 & N1 & N2)].
  - destruct (Decoded c Hc Load) as [OkCase PanicCase]. split.
    + intros ic E. exists c. split; [exact Hc | apply OkCase; exact E].
    + intros e E. right. destruct (PanicCase e E) as (msg & Hm & He).
      exists c, msg. repeat split; assumption.
  - split.
    + intros ic E. unfold New in E. rewrite Load in E. discriminate E.
    + intros e E. unfold New in E. rewrite Load in E. injection E as <-.
      left. repeat split; assumption.
Qed.

(** * Further properties of a run *)

Lemma zrange_length i n : List.length (zrange i n) = n.
Proof.
  revert i. induction n as [| n IH]; intros i; cbn;
    [reflexivity | rewrite IH; reflexivity].
Qed.

Lemma length_filter_flat_map {A B} (p : B -> bool) (f : A -> list B) l :
  List.length (filter p (flat_map f l))
  = list_sum (map (fun a => List.length (filter p (f a))) l).
Proof.
  induction l as [| a l IH]; cbn; [reflexivity |].
  rewrite filter_app, length_app, IH. reflexivity.
Qed.

Lemma list_sum_constant {A} (k : nat) (l : list A) :
  list_sum (map (fun _ => k) l) = (List.length l * k)%nat.
Proof.
  unfold list_sum.
  induction l as [| a l IH]; cbn [map fold_right List.length];
    [reflexivity | rewrite IH; lia].
Qed.

Lemma list_sum_as_sum_Z {A} (f : A -> nat) (g : A -> Z) l :
  (forall a, In a l -> Z.of_nat (f a) = g a) ->
  Z.of_nat (list_sum (map f l)) = sum_Z (map g l).
Proof.
  unfold sum_Z, list_sum.
  induction l as [| a l IH]; intros H; cbn [map fold_right]; [reflexivity |].
  rewrite Nat2Z.inj_add, (H a (or_introl eq_refl)).
  rewrite IH; [reflexivity |].
  intros b Hb. apply H. right. exact Hb.
Qed.

Section Counting.

Context {L : Libraries}.
Variable ic : ImageCreator.
Variable destination : string.

Lemma tiles_of_level level :
  List.length (filter is_tile (level_events ic destination level))
  = (Z.to_nat (columns (dzid ic) level) * Z.to_nat (rows (dzid ic) level))%nat.
Proof.
  unfold level_events. cbn [filter is_tile].
  rewrite length_filter_flat_map.
  rewrite (map_ext _ (fun _ => Z.to_nat (rows (dzid ic) level))).
  - rewrite list_sum_constant, zrange_length. reflexivity.
  - intros column. rewrite length_filter_flat_map.
    rewrite (map_ext _ (fun _ => 1%nat)) by reflexivity.
    rewrite list_sum_constant, zrange_length. lia.
Qed.

Lemma dirs_of_level level :
  List.length (filter is_dir (level_events ic destination level)) = 1%nat.
Proof.
  unfold level_events. cbn [filter is_dir List.length]. f_equal.
  rewrite length_filter_flat_map.
  rewrite (map_ext _ (fun _ => 0%nat)).
  - rewrite list_sum_constant. lia.
  - intros column. rewrite length_filter_flat_map.
    rewrite (map_ext _ (fun _ => 0%nat)) by reflexivity.
    rewrite list_sum_constant. lia.
Qed.

End Counting.

(** X11.  When [New] has built the creator, a run with enough fuel
    ends: normally, or by the panic of [check] on an error that
    [os.MkdirAll], [os.Create], [jpeg.Encode] or the template's execution
    returned.  Whenever a run ends normally, what it wrote starts with
    the files directory, ends with the descriptor saved at the
    destination with the fields [New] gave it, and holds in between one
    directory per level and, for each level, as many tile files as
    [getNumTiles] announces columns times rows. *)
Theorem X11_run_writes_the_pyramid {L : Libraries}
  (quality : Q) (source format : string) (tileSize overlap : Z)
  (destination : string) (ic : ImageCreator) (n : Z) :
  New quality "" false source format tileSize overlap = Ok ic ->
  well_formed (dzid ic) ->
  eval NumLevels (dzid ic) = Ok n ->
  (forall fuel written,
      run fuel quality source format tileSize overlap destination
      = (Some written, Ok tt) ->
      exists body d',
        written = EnsureDir (getFilesPath destination)
                  :: body ++ [SaveDescriptor destination d'] /\
        same_fields (dzid ic) d' /\
        Z.of_nat (List.length (filter is_tile written))
        = sum_Z (map (tiles_at (dzid ic)) (zrange 0 (Z.to_nat n))) /\
        Z.of_nat (List.length (filter is_dir written)) = n + 1) /\
  (exists enough, forall fuel,
      (enough <= fuel)%nat ->
      (exists written,
          run fuel quality source format tileSize overlap destination
          = (Some written, Ok tt)) \/
      (exists msg,
          library_error msg /\
          run fuel quality source format tileSize overlap destination
          = (None, Panic (External msg)))).
Proof.
  intros HNew WF En. pose proof (levels_bounds _ (proj1 WF)) as B.
  rewrite eval_NumLevels in En by exact WF. injection En as <-.
  split.
  - intros fuel written Run. unfold run in Run. rewrite HNew in Run.
    destruct (create fuel destination ic) as [[w ic'] | e] eqn:Cr;
      [| discriminate Run].
    injection Run as ->.
    destruct (create_returns ic destination WF fuel written ic' Cr)
      as (-> & _ & _).
    exists (flat_map (level_events ic destination)
                     (zrange 0 (Z.to_nat (levels (dzid ic))))),
      (filled (dzid ic)).
    split; [reflexivity |]. split; [apply same_fields_filled |]. split.
    + unfold pyramid_events. cbn [filter is_tile].
      rewrite filter_app. cbn [filter is_tile]. rewrite app_nil_r.
      rewrite length_filter_flat_map.
      apply list_sum_as_sum_Z. intros level Hl. apply In_zrange in Hl.
      assert (V : valid_level (dzid ic) level) by (unfold valid_level; lia).
      rewrite tiles_of_level. unfold tiles_at.
      rewrite (eval_Ok _ _ _ _ (getNumTiles_run _ level WF V)).
      pose proof (columns_bounds _ level (proj1 WF) V).
      pose proof (rows_bounds _ level (proj1 WF) V).
      rewrite Nat2Z.inj_mul, !Z2Nat.id by lia. reflexivity.
    + unfold pyramid_events. cbn [filter is_dir List.length].
      rewrite filter_app, length_app. cbn [filter is_dir List.length].
      rewrite length_filter_flat_map.
      rewrite (map_ext _ (fun _ => 1%nat)) by (intros; apply dirs_of_level).
      rewrite list_sum_constant, zrange_length. lia.
  - exists (Datatypes.S (Z.to_nat (levels (dzid ic)))). intros fuel Hf.
    unfold run. rewrite HNew.
    destruct (create_ends ic destination WF fuel ltac:(lia))
      as [[_ Cr] | (msg & Lib & _ & Cr)]; rewrite Cr.
    + left. exists (pyramid_events ic destination). reflexivity.
    + right. exists msg. split; [exact Lib | reflexivity].
Qed.

Lemma X11_run_writes_the_pyramid_witness :
  exists ic,
    @New Demo.OnePicture (3 # 4) "" false "photo.jpg" "jpg" 256 1 = Ok ic /\
    well_formed (dzid ic) /\
    exists written,
      @run Demo.OnePicture 12 (3 # 4) "photo.jpg" "jpg" 256 1
           "out/photo.dzi"
      = (Some written, Ok tt) /\
      Z.of_nat (List.length (filter is_tile written)) = 17 /\
      Z.of_nat (List.length (filter is_dir written)) = 11 + 1.
Proof.
  exists (@mkCreator Demo.OnePicture (newDescriptor 700 500 256 1 "jpg")
                     (700, 500) (3 # 4) "" false).
  split; [reflexivity |].
  assert (WF : well_formed (newDescriptor 700 500 256 1 "jpg")).
  { apply well_formed_new; unfold bound; lia. }
  split; [exact WF |].
  destruct (@X11_run_writes_the_pyramid Demo.OnePicture (3 # 4) "photo.jpg"
              "jpg" 256 1 "out/photo.dzi" _ 11 eq_refl WF eq_refl)
    as (Safe & _).
  exists (pyramid_events
            (@mkCreator Demo.OnePicture (newDescriptor 700 500 256 1 "jpg")
                        (700, 500) (3 # 4) "" false)
            "out/photo.dzi").
  assert (Run : @run Demo.OnePicture 12 (3 # 4) "photo.jpg" "jpg" 256 1
                     "out/photo.dzi"
                = (Some (pyramid_events
                           (@mkCreator Demo.OnePicture
                              (newDescriptor 700 500 256 1 "jpg")
                              (700, 500) (3 # 4) "" false)
                           "out/photo.dzi"),
                   Ok tt)) by reflexivity.
  split; [exact Run |].
  destruct (Safe 12%nat _ Run) as (body & d' & _ & _ & Tiles & Dirs).
  split; [| exact Dirs].
  rewrite Tiles. reflexivity.
Defined.

(** * Names and paths *)

Lemma split_at_char c a a' b b' :
  lacks c a -> lacks c a' ->
  (a ++ String c b = a' ++ String c b')%string ->
  a = a' /\ b = b'.
Proof.
  revert a'. induction a as [| x a IH]; intros [| x' a'] La La' E;
    cbn in *.
  - injection E as <-. split; reflexivity.
  - injection E as <- _. destruct La' as [N _]. contradiction.
  - injection E as -> _. destruct La as [N _]. contradiction.
  - injection E as <- E. destruct La as [_ La]. destruct La' as [_ La'].
    destruct (IH a' La La' E) as [<- <-]. split; reflexivity.
Qed.

Lemma digits_lack c d :
  c = "_"%char \/ c = "."%char -> lacks c (NilEmpty.string_of_uint d).
Proof.
  intros [-> | ->]; induction d; cbn; try split; try discriminate;
    trivial.
Qed.

Lemma Itoa_lacks c z :
  c = "_"%char \/ c = "."%char -> lacks c (GoStrings.Itoa z).
Proof.
  intros Hc. unfold GoStrings.Itoa, NilZero.string_of_int.
  assert (U : forall d, lacks c (NilZero.string_of_uint d)).
  { intros d. unfold NilZero.string_of_uint.
    destruct d; try apply (digits_lack c _ Hc).
    destruct Hc as [-> | ->]; cbn; split; trivial; discriminate. }
  destruct (Z.to_int z) as [d | d]; [apply U |].
  cbn. split; [| apply U].
  destruct Hc as [-> | ->]; discriminate.
Qed.

Lemma Itoa_inj a b : GoStrings.Itoa a = GoStrings.Itoa b -> a = b.
Proof.
  unfold GoStrings.Itoa. intros E.
  assert (Canon : forall z, Z.to_int z <> Decimal.Pos Decimal.Nil /\
                            Z.to_int z <> Decimal.Neg Decimal.Nil).
  { intros [| p | p]; cbn; split; try discriminate;
      intros H; injection H as H;
      exact (DecimalPos.Unsigned.to_uint_nonnil p H). }
  pose proof (NilZero.isi (Z.to_int a) (proj1 (Canon a)) (proj2 (Canon a)))
    as Pa.
  pose proof (NilZero.isi (Z.to_int b) (proj1 (Canon b)) (proj2 (Canon b)))
    as Pb.
  rewrite E, Pb in Pa. injection Pa as Pa.
  apply DecimalZ.to_int_inj. symmetry. exact Pa.
Qed.

(** X12.  The names a run gives to its directories and files tell the
    tiles apart: the decimal name of a level determines the level, and
    the file name of a tile determines its column, its row and the
    format. *)
Theorem X12_tile_names_are_distinct :
  (forall level level',
      GoStrings.Itoa level = GoStrings.Itoa level' -> level = level') /\
  (forall column row format column' row' format',
      tileName column row format = tileName column' row' format' ->
      column = column' /\ row = row' /\ format = format').
Proof.
  split; [exact Itoa_inj |].
  intros column row format column' row' format' E. unfold tileName in E.
  destruct (split_at_char "_" _ _ _ _
              (Itoa_lacks _ column (or_introl eq_refl))
              (Itoa_lacks _ column' (or_introl eq_refl)) E) as [Ec E'].
  destruct (split_at_char "." _ _ _ _
              (Itoa_lacks _ row (or_intror eq_refl))
              (Itoa_lacks _ row' (or_intror eq_refl)) E') as [Er Ef].
  split; [apply Itoa_inj; exact Ec |].
  split; [apply Itoa_inj; exact Er | exact Ef].
Qed.

Lemma ext_scan_shape backwards acc :
  GoStrings.ext_scan backwards acc = []
  \/ exists rest, GoStrings.ext_scan backwards acc = "."%char :: rest.
Proof.
  revert acc. induction backwards as [| c more IH]; intros acc; cbn.
  - left. reflexivity.
  - destruct (Ascii.eqb c "/"); [left; reflexivity |].
    destruct (Ascii.eqb_spec c ".") as [-> | _]; [| apply IH].
    right. exists acc. reflexivity.
Qed.

Lemma ext_scan_skips e rest acc :
  Forall (fun a => a <> "/"%char /\ a <> "."%char) e ->
  GoStrings.ext_scan (rev e ++ rest) acc = GoStrings.ext_scan rest (e ++ acc).
Proof.
  intros F. revert rest acc. induction F as [| c e [Ns Nd] F IH];
    intros rest acc.
  - reflexivity.
  - cbn [rev]. rewrite <- app_assoc. cbn [app]. rewrite IH.
    cbn [GoStrings.ext_scan].
    apply Ascii.eqb_neq in Ns. apply Ascii.eqb_neq in Nd.
    rewrite Ns, Nd. reflexivity.
Qed.

Lemma ext_scan_without_dot backwards acc :
  Forall (fun a => a <> "."%char) backwards ->
  GoStrings.ext_scan backwards acc = [].
Proof.
  intros F. revert acc. induction F as [| c more Nd F IH]; intros acc; cbn.
  - reflexivity.
  - destruct (Ascii.eqb c "/"); [reflexivity |].
    apply Ascii.eqb_neq in Nd. rewrite Nd. apply IH.
Qed.

Lemma lacks_Forall c s :
  lacks c s -> Forall (fun a => a <> c) (list_ascii_of_string s).
Proof.
  induction s as [| a s IH]; cbn; intros H; constructor; tauto.
Qed.

Lemma list_ascii_of_string_app a b :
  list_ascii_of_string (a ++ b)%string
  = list_ascii_of_string a ++ list_ascii_of_string b.
Proof. induction a as [| c a IH]; cbn; [reflexivity | rewrite IH; reflexivity]. Qed.

Lemma string_app_cancel s a b : (s ++ a = s ++ b)%string -> a = b.
Proof.
  induction s as [| c s IH]; cbn; intros E; [exact E |].
  injection E as E. apply IH. exact E.
Qed.

Lemma trim_suffix_nil s : GoStrings.trim_suffix s [] = s.
Proof.
  unfold GoStrings.trim_suffix, GoStrings.has_suffix.
  cbn [List.length]. rewrite Nat.sub_0_r, skipn_all, firstn_all.
  destruct (list_eq_dec ascii_dec [] []); [| contradiction].
  cbn. reflexivity.
Qed.

(** X13.  The directory that [getFilesPath] names is never the
    destination itself.  For a destination that ends in a dot followed
    by an extension without dot or slash, it is the part before the dot
    followed by "_files"; for a destination without any dot it is the
    destination followed by "_files". *)
Theorem X13_files_path_replaces_the_extension :
  (forall destination, getFilesPath destination <> destination) /\
  (forall stem extension,
      lacks "." extension -> lacks "/" extension ->
      getFilesPath (stem ++ "." ++ extension) = (stem ++ "_files")%string) /\
  (forall destination,
      lacks "." destination ->
      getFilesPath destination = (destination ++ "_files")%string).
Proof.
  split; [| split].
  - intros destination Same.
    destruct (getFilesPath_stem destination) as (stem & Hd & Hf).
    rewrite Hf in Same. pose proof (eq_trans Same Hd) as Both.
    clear Same. rename Both into Same.
    apply string_app_cancel in Same.
    unfold GoStrings.Ext, GoStrings.ext in Same.
    destruct (ext_scan_shape (rev (list_ascii_of_string destination)) [])
      as [E | (rest & E)]; rewrite E in Same; discriminate Same.
  - intros stem extension Nd Ns.
    assert (E : GoStrings.ext
                  (list_ascii_of_string stem
                   ++ "."%char :: list_ascii_of_string extension)
                = "."%char :: list_ascii_of_string extension).
    { unfold GoStrings.ext. rewrite rev_app_distr. cbn [rev].
      rewrite <- !app_assoc. cbn [app].
      rewrite ext_scan_skips.
      - cbn. rewrite app_nil_r. reflexivity.
      - apply lacks_Forall in Nd. apply lacks_Forall in Ns.
        rewrite Forall_forall in *. intros a Ha. split; auto. }
    unfold getFilesPath, GoStrings.TrimSuffix, GoStrings.Ext.
    rewrite list_ascii_of_string_of_list_ascii.
    rewrite list_ascii_of_string_app. cbn [list_ascii_of_string append].
    rewrite E.
    rewrite (trim_suffix_app (list_ascii_of_string stem)
               ("."%char :: list_ascii_of_string extension)).
    rewrite string_of_list_ascii_of_string. reflexivity.
  - intros destination Nd.
    assert (E : GoStrings.ext (list_ascii_of_string destination) = []).
    { unfold GoStrings.ext. apply ext_scan_without_dot.
      apply Forall_rev. apply lacks_Forall. exact Nd. }
    unfold getFilesPath, GoStrings.TrimSuffix, GoStrings.Ext.
    rewrite E. cbn [string_of_list_ascii list_ascii_of_string].
    rewrite trim_suffix_nil, string_of_list_ascii_of_string. reflexivity.
Qed.

(** * The thumbnail sheet *)

Lemma wrap_range z : GoInt.min_int <= GoInt.wrap z <= GoInt.max_int.
Proof.
  unfold GoInt.wrap, GoInt.min_int, GoInt.max_int.
  pose proof (Z.mod_pos_bound (z + 2 ^ 63) (2 ^ 64) ltac:(lia)). lia.
Qed.

Lemma wrap_shift z : exists k, GoInt.wrap z = z + k * 2 ^ 64.
Proof.
  unfold GoInt.wrap. exists (- ((z + 2 ^ 63) / 2 ^ 64)).
  pose proof (Z.div_mod (z + 2 ^ 63) (2 ^ 64) ltac:(lia)). lia.
Qed.

Lemma wrap_absorbs a b c :
  GoInt.wrap (GoInt.wrap a * b + c) = GoInt.wrap (a * b + c).
Proof.
  destruct (wrap_shift a) as [k ->]. unfold GoInt.wrap. f_equal.
  replace ((a + k * 2 ^ 64) * b + c + 2 ^ 63)
    with (a * b + c + 2 ^ 63 + (k * b) * 2 ^ 64) by ring.
  apply Z.mod_add. lia.
Qed.

(** X14.  [divmod] panics exactly for a zero denominator.  Otherwise its
    quotient and remainder rebuild the numerator in int arithmetic,
    quotient * denominator + remainder, also for the most negative int
    divided by -1; the remainder is smaller in magnitude than the
    denominator and never has the sign opposite to the numerator's. *)
Theorem X14_divmod_rebuilds_the_numerator numerator denominator :
  GoInt.min_int <= numerator <= GoInt.max_int ->
  (denominator = 0 <->
   Sheet.divmod numerator denominator = Sheet.DivideByZero) /\
  (denominator <> 0 ->
   exists quotient remainder,
     Sheet.divmod numerator denominator
     = Sheet.Done (quotient, remainder) /\
     GoInt.add (GoInt.mul quotient denominator) remainder = numerator /\
     Z.abs remainder < Z.abs denominator /\
     0 <= remainder * numerator /\
     GoInt.min_int <= quotient <= GoInt.max_int).
Proof.
  intros Hn. unfold Sheet.divmod. split.
  - destruct (Z.eqb_spec denominator 0) as [E | N]; split; intros H;
      try reflexivity; try assumption; try contradiction; discriminate H.
  - intros N. destruct (Z.eqb_spec denominator 0) as [E | _];
      [contradiction |].
    eexists. eexists. split; [reflexivity |]. split; [| split; [| split]].
    + unfold GoInt.add, GoInt.mul.
      destruct (wrap_shift (GoInt.wrap (Z.quot numerator denominator)
                            * denominator)) as [k Hk].
      rewrite Hk.
      replace (GoInt.wrap (numerator ÷ denominator) * denominator
               + k * 2 ^ 64 + Z.rem numerator denominator)
        with (GoInt.wrap (numerator ÷ denominator) * denominator
              + (Z.rem numerator denominator + k * 2 ^ 64)) by ring.
      rewrite wrap_absorbs.
      replace (numerator ÷ denominator * denominator
               + (Z.rem numerator denominator + k * 2 ^ 64))
        with (numerator + k * 2 ^ 64)
        by (pose proof (Z.quot_rem' numerator denominator); lia).
      unfold GoInt.wrap.
      replace (numerator + k * 2 ^ 64 + 2 ^ 63)
        with (numerator + 2 ^ 63 + k * 2 ^ 64) by ring.
      rewrite Z.mod_add by lia.
      unfold GoInt.min_int, GoInt.max_int in Hn.
      rewrite Z.mod_small; lia.
    + apply Z.rem_bound_abs. exact N.
    + apply Z.rem_sign_mul. exact N.
    + apply wrap_range.
Qed.

Lemma X14_divmod_rebuilds_the_numerator_witness :
  GoInt.min_int <= - 2 ^ 63 <= GoInt.max_int /\
  exists quotient remainder,
    Sheet.divmod (- 2 ^ 63) (- 1) = Sheet.Done (quotient, remainder) /\
    GoInt.add (GoInt.mul quotient (- 1)) remainder = - 2 ^ 63 /\
    quotient = - 2 ^ 63.
Proof.
  assert (R : GoInt.min_int <= - 2 ^ 63 <= GoInt.max_int).
  { unfold GoInt.min_int, GoInt.max_int. lia. }
  split; [exact R |].
  destruct (X14_divmod_rebuilds_the_numerator (- 2 ^ 63) (- 1) R)
    as [_ Build].
  destruct (Build ltac:(lia)) as (q & r & Run & Back & _).
  exists q, r. split; [exact Run |]. split; [exact Back |].
  injection Run as <- _. reflexivity.
Defined.

Section SheetLoop.

Variables imgNum sampleInterval columnLength : Z.
Hypothesis Hnum : 0 <= imgNum < bound.
Hypothesis Hint : 0 < sampleInterval < bound.
Hypothesis Hcol : 0 < columnLength < bound.

Lemma sampled_count_bounds :
  0 <= imgNum / sampleInterval <= imgNum /\
  imgNum / sampleInterval * sampleInterval <= imgNum
  < (imgNum / sampleInterval + 1) * sampleInterval.
Proof.
  pose proof (Z.div_mod imgNum sampleInterval ltac:(lia)) as E.
  pose proof (Z.mod_pos_bound imgNum sampleInterval ltac:(lia)) as R.
  assert (0 <= imgNum / sampleInterval) by (apply Z.div_pos; lia).
  split; [split; [lia | nia] | nia].
Qed.

Lemma quo_sampled k :
  0 <= k <= imgNum / sampleInterval ->
  Sheet.quo (k * sampleInterval) sampleInterval = Sheet.Done k.
Proof.
  intros Hk. pose proof sampled_count_bounds as [[_ C] _].
  unfold Sheet.quo, bound in *.
  destruct (Z.eqb_spec sampleInterval 0); [lia |].
  rewrite Z.quot_mul by lia. rewrite wrap_small; [reflexivity |].
  unfold GoInt.min_int, GoInt.max_int. lia.
Qed.

Lemma divmod_cell k :
  0 <= k <= imgNum ->
  Sheet.divmod k columnLength
  = Sheet.Done (k / columnLength, k mod columnLength).
Proof.
  intros Hk. unfold Sheet.divmod, bound in *.
  destruct (Z.eqb_spec columnLength 0); [lia |].
  rewrite Z.quot_div_nonneg, Z.rem_mod_nonneg by lia.
  assert (0 <= k / columnLength <= k).
  { split; [apply Z.div_pos; lia |].
    apply Z.div_le_upper_bound; nia. }
  rewrite wrap_small; [reflexivity |].
  unfold GoInt.min_int, GoInt.max_int. lia.
Qed.

(** The launching loop from the [k]-th sampled frame on, with [n] frames
    still to go. *)
Lemma launch_run n :
  forall fuel k row column,
    0 <= k -> k + Z.of_nat n = imgNum / sampleInterval ->
    (n < fuel)%nat ->
    Sheet.launch fuel imgNum sampleInterval columnLength
                 (k * sampleInterval) row column
    = Sheet.Done
        (map (Sheet.nth_job sampleInterval columnLength) (zrange k n),
         match n with
         | O => (row, column)
         | S _ => ((imgNum / sampleInterval - 1) / columnLength,
                   (imgNum / sampleInterval - 1) mod columnLength)
         end).
Proof.
  pose proof sampled_count_bounds as [[C0 C1] [C2 C3]].
  induction n as [| n IH]; intros fuel k row column Hk Hn Hf;
    (destruct fuel as [| fuel]; [lia |]); cbn [Sheet.launch].
  - assert (Sub : GoInt.sub imgNum sampleInterval = imgNum - sampleInterval).
    { apply wrap_small. unfold GoInt.min_int, GoInt.max_int, bound in *. lia. }
    rewrite Sub.
    destruct (Z.leb_spec (k * sampleInterval) (imgNum - sampleInterval));
      [nia | reflexivity].
  - assert (Sub : GoInt.sub imgNum sampleInterval = imgNum - sampleInterval).
    { apply wrap_small. unfold GoInt.min_int, GoInt.max_int, bound in *. lia. }
    rewrite Sub.
    destruct (Z.leb_spec (k * sampleInterval) (imgNum - sampleInterval));
      [| nia].
    rewrite quo_sampled by lia. cbn [Sheet.and_then].
    rewrite divmod_cell by lia. cbn [Sheet.and_then].
    assert (Next : GoInt.add (k * sampleInterval) sampleInterval
                   = (k + 1) * sampleInterval).
    { unfold GoInt.add. rewrite wrap_small; [ring |].
      unfold GoInt.min_int, GoInt.max_int, bound in *. nia. }
    rewrite Next.
    rewrite (IH fuel (k + 1) _ _ ltac:(lia) ltac:(lia) ltac:(lia)).
    cbn [Sheet.and_then fst snd zrange map]. f_equal. f_equal.
    destruct n as [| n]; [| reflexivity].
    replace (imgNum / sampleInterval - 1) with k by lia. reflexivity.
Qed.

Lemma nth_error_zrange_map {A} (f : Z -> A) n :
  forall i k,
    0 <= k < Z.of_nat n ->
    nth_error (map f (zrange i n)) (Z.to_nat k) = Some (f (i + k)).
Proof.
  induction n as [| n IH]; intros i k Hk; [lia |].
  cbn [zrange map].
  destruct (Z.eq_dec k 0) as [-> | N].
  - cbn. rewrite Z.add_0_r. reflexivity.
  - replace (Z.to_nat k) with (S (Z.to_nat (k - 1))) by lia.
    cbn [nth_error]. rewrite IH by lia. f_equal. f_equal. lia.
Qed.

End SheetLoop.

Lemma generateJPG_run
  imgNum sampleInterval columnLength thumbnailWidth thumbnailHeight fuel :
  0 <= imgNum < bound ->
  0 < sampleInterval < bound ->
  0 < columnLength < bound ->
  (Z.to_nat (imgNum / sampleInterval) < fuel)%nat ->
  Sheet.generateJPG fuel imgNum sampleInterval columnLength
                    thumbnailWidth thumbnailHeight
  = Sheet.Done
      (Sheet.mkPlan
         (imgNum / sampleInterval)
         (map (Sheet.nth_job sampleInterval columnLength)
              (zrange 0 (Z.to_nat (imgNum / sampleInterval))))
         (Sheet.generateFinImage
            thumbnailWidth thumbnailHeight columnLength
            (GoInt.add (if imgNum / sampleInterval =? 0 then 0
                        else (imgNum / sampleInterval - 1) / columnLength)
                       1))
         (imgNum / sampleInterval)).
Proof.
  intros Hnum Hint Hcol Hf.
  pose proof (sampled_count_bounds imgNum sampleInterval columnLength
                Hnum Hint Hcol) as [[C0 C1] _].
  set (count := imgNum / sampleInterval) in *.
  assert (Quo : Sheet.quo imgNum sampleInterval = Sheet.Done count).
  { unfold Sheet.quo, bound in *.
    destruct (Z.eqb_spec sampleInterval 0); [lia |].
    rewrite Z.quot_div_nonneg by lia. fold count.
    rewrite wrap_small; [reflexivity |].
    unfold GoInt.min_int, GoInt.max_int. lia. }
  unfold Sheet.generateJPG. rewrite Quo. cbn [Sheet.and_then].
  destruct (Z.ltb_spec count 0); [lia |].
  pose proof (launch_run imgNum sampleInterval columnLength Hnum Hint Hcol
                (Z.to_nat count) fuel 0 0 0 ltac:(lia)
                ltac:(fold count; lia) ltac:(lia)) as Run.
  rewrite Z.mul_0_l in Run. rewrite Run. cbn [Sheet.and_then].
  fold count.
  destruct (Z.eqb_spec count 0) as [E | N].
  - rewrite E. reflexivity.
  - destruct (Z.to_nat count) as [| m] eqn:M; [lia |]. reflexivity.
Qed.

(** X15.  For a non-negative number of frames and positive sampling
    interval and column length (all below 2^31), [generateJPG] gets past
    its loops: it starts exactly imgNum / sampleInterval goroutines, which
    is both the capacity it gave the channel and the number of results it
    then waits for.  The k-th of them is handed frame k * sampleInterval
    and the grid cell (k / columnLength, k mod columnLength). *)
Theorem X15_sheet_starts_what_it_receives
  imgNum sampleInterval columnLength thumbnailWidth thumbnailHeight :
  0 <= imgNum < bound ->
  0 < sampleInterval < bound ->
  0 < columnLength < bound ->
  exists p,
    (exists enough, forall fuel,
        (enough <= fuel)%nat ->
        Sheet.generateJPG fuel imgNum sampleInterval columnLength
                          thumbnailWidth thumbnailHeight
        = Sheet.Done p) /\
    Sheet.capacity p = imgNum / sampleInterval /\
    Sheet.receives p = imgNum / sampleInterval /\
    Z.of_nat (List.length (Sheet.jobs p)) = imgNum / sampleInterval /\
    (forall k,
        0 <= k < imgNum / sampleInterval ->
        nth_error (Sheet.jobs p) (Z.to_nat k)
        = Some (Sheet.mkJob (k / columnLength) (k mod columnLength)
                            (k * sampleInterval))).
Proof.
  intros Hnum Hint Hcol.
  pose proof (sampled_count_bounds imgNum sampleInterval columnLength
                Hnum Hint Hcol) as [[C0 C1] _].
  eexists. split; [| split; [| split; [| split]]].
  - exists (S (Z.to_nat (imgNum / sampleInterval))). intros fuel Hf.
    apply generateJPG_run; assumption.
  - reflexivity.
  - reflexivity.
  - cbn [Sheet.jobs]. rewrite length_map, zrange_length. lia.
  - intros k Hk. cbn [Sheet.jobs].
    rewrite nth_error_zrange_map by lia.
    rewrite Z.add_0_l. reflexivity.
Qed.

Lemma X15_sheet_starts_what_it_receives_witness :
  exists p,
    (exists enough, forall fuel,
        (enough <= fuel)%nat ->
        Sheet.generateJPG fuel 107 20 3 64 48 = Sheet.Done p) /\
    Sheet.capacity p = 5 /\ Sheet.receives p = 5 /\
    Z.of_nat (List.length (Sheet.jobs p)) = 5 /\
    nth_error (Sheet.jobs p) 4 = Some (Sheet.mkJob 1 1 80).
Proof.
  destruct (X15_sheet_starts_what_it_receives 107 20 3 64 48
              ltac:(unfold bound; lia) ltac:(unfold bound; lia)
              ltac:(unfold bound; lia))
    as (p & Run & Cap & Rec & Len & Nth).
  exists p. split; [exact Run |]. split; [exact Cap |].
  split; [exact Rec |]. split; [exact Len |].
  exact (Nth 4 ltac:(cbn; lia)).
Defined.

Lemma drawn_exact width height k columnLength sampleInterval :
  0 < width < bound -> 0 < height < bound ->
  0 < columnLength < bound -> 0 <= k < bound ->
  Sheet.drawn width height (Sheet.nth_job sampleInterval columnLength k)
  = mkRect (mkPoint (k / columnLength * width) (k mod columnLength * height))
           (mkPoint (k / columnLength * width + width)
                    (k mod columnLength * height + height)).
Proof.
  intros Hw Hh Hc Hk. unfold bound in *.
  assert (Q : 0 <= k / columnLength <= k).
  { split; [apply Z.div_pos; lia | apply Z.div_le_upper_bound; nia]. }
  pose proof (Z.mod_pos_bound k columnLength ltac:(lia)) as R.
  unfold Sheet.drawn, Sheet.position, Sheet.nth_job.
  cbn [Sheet.job_row Sheet.job_column X Y].
  unfold GoInt.mul, GoInt.add.
  rewrite (wrap_small (k / columnLength * width))
    by (unfold GoInt.min_int, GoInt.max_int; nia).
  rewrite (wrap_small (k mod columnLength * height))
    by (unfold GoInt.min_int, GoInt.max_int; nia).
  rewrite !wrap_small by (unfold GoInt.min_int, GoInt.max_int; nia).
  reflexivity.
Qed.

(** X16.  When every thumbnail has the width and height measured on the
    first frame, the rectangles the thumbnails are drawn into all lie
    inside the sheet that [generateJPG] allocates, and the rectangles of
    two different goroutines have no pixel in common: no thumbnail is
    cut off and none overwrites another. *)
Theorem X16_thumbnails_fit_and_do_not_collide
  imgNum sampleInterval columnLength thumbnailWidth thumbnailHeight :
  0 <= imgNum < bound ->
  0 < sampleInterval < bound ->
  0 < columnLength < bound ->
  0 < thumbnailWidth < bound ->
  0 < thumbnailHeight < bound ->
  exists p,
    (exists enough, forall fuel,
        (enough <= fuel)%nat ->
        Sheet.generateJPG fuel imgNum sampleInterval columnLength
                          thumbnailWidth thumbnailHeight
        = Sheet.Done p) /\
    (forall j,
        In j (Sheet.jobs p) ->
        Sheet.inside (Sheet.drawn thumbnailWidth thumbnailHeight j)
                     (Sheet.sheet p)) /\
    (forall k k' j j',
        nth_error (Sheet.jobs p) k = Some j ->
        nth_error (Sheet.jobs p) k' = Some j' ->
        k <> k' ->
        Sheet.disjoint (Sheet.drawn thumbnailWidth thumbnailHeight j)
                       (Sheet.drawn thumbnailWidth thumbnailHeight j')).
Proof.
  intros Hnum Hint Hcol Hw Hh.
  pose proof (sampled_count_bounds imgNum sampleInterval columnLength
                Hnum Hint Hcol) as [[C0 C1] _].
  set (count := imgNum / sampleInterval) in *.
  eexists. split; [| split].
  - exists (S (Z.to_nat count)). intros fuel Hf.
    apply generateJPG_run; assumption.
  - intros j Hj. cbn [Sheet.jobs Sheet.sheet] in *.
    apply in_map_iff in Hj. destruct Hj as (k & <- & Hk).
    apply In_zrange in Hk. fold count in Hk.
    rewrite drawn_exact by (try assumption; unfold bound in *; lia).
    fold count. destruct (Z.eqb_spec count 0) as [E | N]; [lia |].
    assert (Q : 0 <= k / columnLength <= (count - 1) / columnLength).
    { split; [apply Z.div_pos; lia | apply Z.div_le_mono; lia]. }
    assert (Q' : (count - 1) / columnLength <= count).
    { apply Z.div_le_upper_bound; nia. }
    pose proof (Z.mod_pos_bound k columnLength ltac:(lia)) as R.
    unfold Sheet.generateFinImage, GoInt.add, GoInt.mul. unfold bound in *.
    rewrite (wrap_small ((count - 1) / columnLength + 1))
      by (unfold GoInt.min_int, GoInt.max_int; lia).
    rewrite !wrap_small by (unfold GoInt.min_int, GoInt.max_int; nia).
    assert (Wide : 0 <= k / columnLength * thumbnailWidth
                   /\ k / columnLength * thumbnailWidth + thumbnailWidth
                      <= thumbnailWidth * ((count - 1) / columnLength + 1))
      by nia.
    assert (High : 0 <= k mod columnLength * thumbnailHeight
                   /\ k mod columnLength * thumbnailHeight + thumbnailHeight
                      <= thumbnailHeight * columnLength)
      by nia.
    intros px py [Px Py]. unfold In_rect. cbn [X Y Min Max] in *. lia.
  - intros k k' j j' Hj Hj' Ne. cbn [Sheet.jobs] in *.
    assert (At : forall i x,
               nth_error (map (Sheet.nth_job sampleInterval columnLength)
                              (zrange 0 (Z.to_nat count))) i = Some x ->
               0 <= Z.of_nat i < count /\
               x = Sheet.nth_job sampleInterval columnLength (Z.of_nat i)).
    { intros i x Hi.
      assert (Li : (i < Z.to_nat count)%nat).
      { assert (Some_i :
                  nth_error (map (Sheet.nth_job sampleInterval columnLength)
                                 (zrange 0 (Z.to_nat count))) i <> None)
          by congruence.
        apply nth_error_Some in Some_i.
        rewrite length_map, zrange_length in Some_i. exact Some_i. }
      split; [lia |].
      pose proof (nth_error_zrange_map
                    (Sheet.nth_job sampleInterval columnLength)
                    (Z.to_nat count) 0 (Z.of_nat i) ltac:(lia)) as E.
      rewrite Nat2Z.id in E. rewrite E in Hi. injection Hi as <-.
      reflexivity. }
    destruct (At _ _ Hj) as [Rk ->]. destruct (At _ _ Hj') as [Rk' ->].
    rewrite !drawn_exact by (try assumption; unfold bound in *; lia).
    intros px py [[Px Py] [Px' Py']]. cbn [X Y Min Max] in *.
    assert (Er : Z.of_nat k / columnLength = Z.of_nat k' / columnLength).
    { apply (grid_position_unique thumbnailWidth _ _ px); lia. }
    assert (Ec : Z.of_nat k mod columnLength
                 = Z.of_nat k' mod columnLength).
    { apply (grid_position_unique thumbnailHeight _ _ py); lia. }
    pose proof (Z.div_mod (Z.of_nat k) columnLength ltac:(lia)).
    pose proof (Z.div_mod (Z.of_nat k') columnLength ltac:(lia)).
    apply Ne. apply Nat2Z.inj. congruence.
Qed.

Lemma X16_thumbnails_fit_and_do_not_collide_witness :
  exists p,
    (exists enough, forall fuel,
        (enough <= fuel)%nat ->
        Sheet.generateJPG fuel 107 20 3 64 48 = Sheet.Done p) /\
    Sheet.inside (Sheet.drawn 64 48 (Sheet.mkJob 1 1 80)) (Sheet.sheet p) /\
    Sheet.disjoint (Sheet.drawn 64 48 (Sheet.mkJob 0 1 20))
                   (Sheet.drawn 64 48 (Sheet.mkJob 1 1 80)).
Proof.
  destruct (X16_thumbnails_fit_and_do_not_collide 107 20 3 64 48
              ltac:(unfold bound; lia) ltac:(unfold bound; lia)
              ltac:(unfold bound; lia) ltac:(unfold bound; lia)
              ltac:(unfold bound; lia))
    as (p & Run & Fit & Apart).
  destruct Run as [enough Run].
  assert (Ep : Sheet.generateJPG (enough + 6) 107 20 3 64 48
               = Sheet.Done p) by (apply Run; lia).
  exists p. split; [exists enough; exact Run |].
  assert (J : Sheet.jobs p
              = [Sheet.mkJob 0 0 0; Sheet.mkJob 0 1 20; Sheet.mkJob 0 2 40;
                 Sheet.mkJob 1 0 60; Sheet.mkJob 1 1 80]).
  { rewrite (generateJPG_run 107 20 3 64 48 (enough + 6)) in Ep;
      [| unfold bound; lia | unfold bound; lia | unfold bound; lia
       | cbn; lia].
    injection Ep as <-. reflexivity. }
  split.
  - apply Fit. rewrite J. cbn. tauto.
  - apply (Apart 1%nat 4%nat);
      [rewrite J; reflexivity | rewrite J; reflexivity | discriminate].
Defined.

(** * The descriptor file *)

Lemma string_app_assoc a b c :
  ((a ++ b) ++ c = a ++ (b ++ c))%string.
Proof. induction a as [| x a IH]; cbn; [reflexivity | rewrite IH; reflexivity]. Qed.

Lemma quoted_app s rest :
  (quoted s ++ rest = String dq (s ++ String dq rest))%string.
Proof. unfold quoted. cbn. rewrite string_app_assoc. reflexivity. Qed.

Lemma Itoa_lacks_quote z : lacks dq (GoStrings.Itoa z).
Proof.
  assert (D : forall d, lacks dq (NilEmpty.string_of_uint d)).
  { induction d; cbn; try split; try discriminate; trivial. }
  assert (U : forall d, lacks dq (NilZero.string_of_uint d)).
  { intros d. unfold NilZero.string_of_uint.
    destruct d; try apply D. cbn. split; [discriminate | trivial]. }
  unfold GoStrings.Itoa, NilZero.string_of_int.
  destruct (Z.to_int z) as [d | d]; [apply U |].
  cbn. split; [discriminate | apply U].
Qed.

(** Two quoted values followed by more text are equal only if the values
    are, when neither holds a double quote. *)
Lemma quoted_split s s' rest rest' :
  lacks dq s -> lacks dq s' ->
  (quoted s ++ rest = quoted s' ++ rest')%string ->
  s = s' /\ rest = rest'.
Proof.
  intros Ls Ls' E. rewrite !quoted_app in E. injection E as E.
  apply (split_at_char dq); assumption.
Qed.

(** X17.  The text that [save] writes does not include the cache, and it
    can be read back: two descriptors whose formats hold no double quote
    and whose saved texts are equal have the same format, overlap, tile
    size, height and width. *)
Theorem X17_saved_descriptor_reads_back d d' :
  lacks dq (Format d) -> lacks dq (Format d') ->
  (DZITemplate d = DZITemplate d' <-> same_fields d' d) /\
  DZITemplate (filled d) = DZITemplate d.
Proof.
  intros LF LF'. split; [| reflexivity]. split.
  - intros E. unfold DZITemplate in E.
    apply string_app_cancel in E.
    apply string_app_cancel in E.
    apply string_app_cancel in E.
    destruct (quoted_split _ _ _ _ LF LF' E) as [EF E1].
    apply string_app_cancel in E1.
    destruct (quoted_split _ _ _ _ (Itoa_lacks_quote _) (Itoa_lacks_quote _)
                           E1) as [EO E2].
    apply string_app_cancel in E2.
    destruct (quoted_split _ _ _ _ (Itoa_lacks_quote _) (Itoa_lacks_quote _)
                           E2) as [ET E3].
    apply string_app_cancel in E3.
    apply string_app_cancel in E3.
    apply string_app_cancel in E3.
    destruct (quoted_split _ _ _ _ (Itoa_lacks_quote _) (Itoa_lacks_quote _)
                           E3) as [EH E4].
    apply string_app_cancel in E4.
    destruct (quoted_split _ _ _ _ (Itoa_lacks_quote _) (Itoa_lacks_quote _)
                           E4) as [EW _].
    apply Itoa_inj in EO. apply Itoa_inj in ET.
    apply Itoa_inj in EH. apply Itoa_inj in EW.
    repeat split; assumption.
  - intros (EF & EO & ET & EH & EW). unfold DZITemplate.
    rewrite EF, EO, ET, EH, EW. reflexivity.
Qed.

Lemma X17_saved_descriptor_reads_back_witness :
  lacks dq "jpg" /\ lacks dq "jpg" /\
  DZITemplate (filled (newDescriptor 512 384 256 1 "jpg"))
  = DZITemplate (newDescriptor 512 384 256 1 "jpg") /\
  (DZITemplate (newDescriptor 512 384 256 1 "jpg")
   = DZITemplate (filled (newDescriptor 512 384 256 1 "jpg"))
   <-> same_fields (filled (newDescriptor 512 384 256 1 "jpg"))
                   (newDescriptor 512 384 256 1 "jpg")).
Proof.
  assert (Q : lacks dq "jpg") by (cbn; repeat split; discriminate).
  split; [exact Q |]. split; [exact Q |].
  destruct (X17_saved_descriptor_reads_back
              (newDescriptor 512 384 256 1 "jpg")
              (filled (newDescriptor 512 384 256 1 "jpg")) Q Q)
    as [Back Cache].
  split; [exact Cache | exact Back].
Defined.

(** * The level count across images *)

(** X18.  The level count is between 1 and 32 for sides below 2^31, it
    is 1 exactly for a 1 x 1 image, and it never decreases when the
    larger side of the image grows. *)
Theorem X18_level_count_grows_with_the_image d d' n n' :
  well_formed d -> well_formed d' ->
  eval NumLevels d = Ok n -> eval NumLevels d' = Ok n' ->
  1 <= n <= 32 /\
  (n = 1 <-> Width d = 1 /\ Height d = 1) /\
  (Z.max (Width d) (Height d) <= Z.max (Width d') (Height d') -> n <= n').
Proof.
  intros WF WF' En En'.
  rewrite eval_NumLevels in En by exact WF. injection En as <-.
  rewrite eval_NumLevels in En' by exact WF'. injection En' as <-.
  pose proof (levels_bounds d (proj1 WF)) as B.
  destruct (proj1 WF) as [HW HH _ _].
  split; [exact B |]. split.
  - unfold levels, maxDimension.
    pose proof (Z.log2_up_null (Z.max (Height d) (Width d))) as Null.
    pose proof (Z.log2_up_nonneg (Z.max (Height d) (Width d))).
    split; intros H1.
    + assert (Z.max (Height d) (Width d) <= 1) by (apply Null; lia). lia.
    + assert (Z.log2_up (Z.max (Height d) (Width d)) = 0)
        by (apply Null; lia).
      lia.
  - intros Le. unfold levels, maxDimension.
    assert (Z.log2_up (Z.max (Height d) (Width d))
            <= Z.log2_up (Z.max (Height d') (Width d')))
      by (apply Z.log2_up_le_mono; lia).
    lia.
Qed.

Lemma X18_level_count_grows_with_the_image_witness :
  well_formed (newDescriptor 1 1 256 0 "jpg") /\
  well_formed (newDescriptor 640 480 256 0 "jpg") /\
  1 <= 1 <= 32 /\ (1 = 1 <-> 1 = 1 /\ 1 = 1) /\
  (Z.max 1 1 <= Z.max 640 480 -> 1 <= 11).
Proof.
  assert (WF : well_formed (newDescriptor 1 1 256 0 "jpg")).
  { apply well_formed_new; unfold bound; lia. }
  assert (WF' : well_formed (newDescriptor 640 480 256 0 "jpg")).
  { apply well_formed_new; unfold bound; lia. }
  split; [exact WF |]. split; [exact WF' |].
  exact (X18_level_count_grows_with_the_image _ _ 1 11 WF WF'
           eq_refl eq_refl).
Defined.
